(** * Prodotti-wow: CSV to Shopify importer (src/app.py)

    A shallow embedding of the image-matching and product-creation pipeline
    of [app.py], and the properties of its specification.

    Python text ([str]) is a list of Unicode code points.  The remote API
    is an oracle answering each request sent on the wire from the history
    of the requests sent so far; the history is the state threaded through
    the program.  A call of the session sends its request again, up to
    five times, as the [Retry] policy mounted on the session says, and
    returns a response or raises; the decorated calls repeat that whole
    call as the retry decorator says.  The Unicode tables of the
    interpreter (case mapping of text that is not ASCII, NFKD
    decomposition) and [base64.b64encode] are parameters. *)

From Stdlib Require Import List Bool Arith NArith ZArith Lia String Ascii DecimalString.
Import ListNotations.

Set Warnings "-register-all".

(** ** Text *)

Module Text.

Definition char := N.
Definition str := list char.

(** A literal of ASCII text as a [str]. *)
Definition u (s : string) : str := List.map N_of_ascii (list_ascii_of_string s).

Fixpoint str_eqb (a b : str) : bool :=
  match a, b with
  | [], [] => true
  | x :: a', y :: b' => (x =? y)%N && str_eqb a' b'
  | _, _ => false
  end.

(** Truthiness of a Python string: non-empty. *)
Definition truthy (s : str) : bool :=
  match s with [] => false | _ :: _ => true end.

Definition is_ascii (c : char) : bool := (c <? 128)%N.

Definition is_upper (c : char) : bool := ((65 <=? c) && (c <=? 90))%N.
Definition is_lower (c : char) : bool := ((97 <=? c) && (c <=? 122))%N.
Definition is_digit (c : char) : bool := ((48 <=? c) && (c <=? 57))%N.

Definition hyphen : char := 45%N.
Definition slash : char := 47%N.
Definition comma : char := 44%N.

Definition is_hyphen (c : char) : bool := (c =? hyphen)%N.

(** The characters of [[a-z0-9-]]. *)
Definition is_slug_char (c : char) : bool :=
  is_lower c || is_digit c || is_hyphen c.

Definition ascii_lower (c : char) : char :=
  if is_upper c then (c + 32)%N else c.

(** [str.isspace] on one code point: the code points whose bidirectional
    type is WS, B or S, or whose category is Zs. *)
Definition is_space (c : char) : bool :=
  (((9 <=? c) && (c <=? 13)) || ((28 <=? c) && (c <=? 32))
   || (c =? 133) || (c =? 160) || (c =? 5760)
   || ((8192 <=? c) && (c <=? 8202))
   || (c =? 8232) || (c =? 8233) || (c =? 8239) || (c =? 8287)
   || (c =? 12288))%N.

(** [s.lstrip(chars)], [s.rstrip(chars)], [s.strip(chars)] for a set of
    characters given by its membership test. *)
Fixpoint lstrip_by (p : char -> bool) (s : str) : str :=
  match s with
  | [] => []
  | c :: t => if p c then lstrip_by p t else s
  end.

Definition rstrip_by (p : char -> bool) (s : str) : str :=
  rev (lstrip_by p (rev s)).

Definition strip_by (p : char -> bool) (s : str) : str :=
  rstrip_by p (lstrip_by p s).

(** A text that does not begin with a character of the set. *)
Definition starts_clean (p : char -> bool) (s : str) : bool :=
  match s with [] => true | c :: _ => negb (p c) end.

(** [s.strip()] *)
Definition strip (s : str) : str := strip_by is_space s.

(** [s.startswith(p)] *)
Fixpoint startswith (p s : str) : bool :=
  match p, s with
  | [], _ => true
  | _ :: _, [] => false
  | a :: p', b :: s' => (a =? b)%N && startswith p' s'
  end.

(** [s.endswith(p)] *)
Definition endswith (p s : str) : bool := startswith (rev p) (rev s).

(** [k in s] for strings: [k] occurs in [s] as a contiguous block. *)
Fixpoint contains (k s : str) : bool :=
  startswith k s ||
  match s with
  | [] => false
  | _ :: t => contains k t
  end.

(** [s.split(sep)] for a separator of one character: the pieces between
    the separators, never an empty list. *)
Fixpoint split_on (sep : char) (s : str) : list str :=
  match s with
  | [] => [[]]
  | c :: t =>
      if (c =? sep)%N then [] :: split_on sep t
      else match split_on sep t with
           | [] => [[c]]
           | piece :: rest => (c :: piece) :: rest
           end
  end.

(** [re.sub(r"X+", "-", s)] for a character class X given by its
    membership test: every maximal run of characters of the class is
    replaced by one hyphen.  [in_run] says that the previous character
    belonged to the run being replaced. *)
Fixpoint sub_runs (cls : char -> bool) (in_run : bool) (s : str) : str :=
  match s with
  | [] => []
  | c :: t =>
      if cls c then
        if in_run then sub_runs cls true t
        else hyphen :: sub_runs cls true t
      else c :: sub_runs cls false t
  end.

Definition re_sub_runs (cls : char -> bool) (s : str) : str :=
  sub_runs cls false s.

(** [sep.join(pieces)] *)
Fixpoint join (sep : str) (pieces : list str) : str :=
  match pieces with
  | [] => []
  | [p] => p
  | p :: rest => p ++ sep ++ join sep rest
  end.

(** [str(n)] for an integer. *)
Definition str_of_Z (z : Z) : str := u (NilZero.string_of_int (Z.to_int z)).

End Text.

Import Text.

(** ** Python dictionaries

    A [dict] keeps its keys in the order of their first insertion;
    assigning to a key that is present replaces the value in place. *)

Module Dict.

Definition dict (V : Type) := list (str * V).

Fixpoint dict_get {V} (d : dict V) (k : str) : option V :=
  match d with
  | [] => None
  | (k', v) :: t => if str_eqb k' k then Some v else dict_get t k
  end.

(** [d[k] = v] *)
Fixpoint dict_set {V} (k : str) (v : V) (d : dict V) : dict V :=
  match d with
  | [] => [(k, v)]
  | (k', v') :: t =>
      if str_eqb k' k then (k', v) :: t else (k', v') :: dict_set k v t
  end.

Definition keys {V} (d : dict V) : list str := List.map fst d.

(** Truthiness of a dict: non-empty. *)
Definition nonempty {V} (d : dict V) : bool :=
  match d with [] => false | _ :: _ => true end.

End Dict.

Import Dict.

(** JSON-like Python values, as they are put in request payloads. *)
Inductive pyval :=
| VNone
| VBool (b : bool)
| VInt (z : Z)
| VStr (s : str)
| VList (l : list pyval)
| VDict (d : list (str * pyval)).

Definition bytes := list Byte.byte.

(** ** The archive ([zipfile.ZipFile]) *)

Record zip_entry := { e_name : str; e_data : bytes }.

Definition ZipFile := list zip_entry.

(** [zf.namelist()]: the names of the entries, in archive order. *)
Definition namelist (zf : ZipFile) : list str := List.map e_name zf.

(** [zf.open(name).read()]: a name is looked up in the archive's table of
    names, where a later entry of the same name has replaced an earlier
    one.  Every name of [namelist] is found; the empty content stands for
    the lookup failure that cannot occur for those. *)
Definition zf_read (zf : ZipFile) (name : str) : bytes :=
  match find (fun e => str_eqb (e_name e) name) (rev zf) with
  | Some e => e_data e
  | None => []
  end.

(** ** Rows of the data frame

    A cell read by [pandas.read_csv] is text, the missing value NaN, or
    another scalar (a number, a boolean), of which the program uses only
    [str(x)] and the truth value. *)
Inductive cell :=
| Text (s : str)
| NaN
| Scalar (shown : str) (nonzero : bool).

Definition py_str (c : cell) : str :=
  match c with
  | Text s => s
  | NaN => u "nan"
  | Scalar shown _ => shown
  end.

Definition cell_truthy (c : cell) : bool :=
  match c with
  | Text s => truthy s
  | NaN => true
  | Scalar _ nonzero => nonzero
  end.

(** A row; [None] is a column that the data frame does not have. *)
Record row := {
  col_titolo_prodotto : option cell;
  col_sku : option cell;
  col_descrizione : option cell;
  col_collezioni : option cell;
  col_tag : option cell;
  col_titolo_della_pagina : option cell;
  col_meta_descrizione : option cell;
  col_handle_url : option cell
}.

(** [str(row.get(col, ""))] *)
Definition cell_text (c : option cell) : str :=
  match c with None => [] | Some v => py_str v end.

(** [str(row.get(col, "")).strip()] *)
Definition get_text (c : option cell) : str := strip (cell_text c).

(** [str(row.get(col, "") or "").strip()] *)
Definition get_text_or (c : option cell) : str :=
  strip (match c with
         | None => []
         | Some v => if cell_truthy v then py_str v else []
         end).

(** The sidebar settings. [default_price] is [str(default_price)];
    [max_images_per_product] and [inventory_qty_default] come from number
    inputs with [min_value=0] and integer steps. *)
Record config := {
  default_vendor : str;
  default_product_type : str;
  default_price : str;
  default_status : str;
  inventory_policy : str;
  inventory_qty_default : N;
  max_images_per_product : nat
}.

(** ** The remote API *)

Inductive http_method := GET | POST | PUT.

(** The paths the program calls: [/products.json],
    [/products/{product_id}/images.json], [/products/{product_id}.json].
    [product_id] is [prod.get("id")]: an integer, or [None]. *)
Inductive endpoint :=
| Products
| ProductImages (product_id : option Z)
| Product (product_id : option Z).

Record request := {
  r_method : http_method;
  r_endpoint : endpoint;
  r_json : pyval
}.

(** What the program reads of a decoded response body:
    [res.get("product", {})], then [prod.get("id")] and
    [prod.get("handle")]. *)
Record product_json := { p_id : option Z; p_handle : option str }.

(** The value under the key "product" of a decoded body: an object, or
    anything else (null, a list, a text), on which [prod.get] raises
    [AttributeError]. *)
Inductive product_value :=
| ProductObject (p : product_json)
| ProductOther.

(** A decoded body: an object, with or without the key "product", or any
    other JSON (a list, a text, a number, null), on which [res.get] raises
    [AttributeError]. *)
Inductive body :=
| JsonObject (b_product : option product_value)
| JsonOther.

(** One HTTP exchange with the remote API: an answer, or an exchange
    that fails (connection refused or reset, timeout).  [retry_after] says
    that the answer has a Retry-After header; [r_body] is [None] when the
    body is not JSON. *)
Inductive wire_outcome :=
| Answered (status_code : Z) (retry_after : bool) (text : str)
    (r_body : option body)
| Unreachable.

(** One call of [session.post] or [session.put]: the response it returns,
    or the exception it raises, named. *)
Inductive http_outcome :=
| Response (status_code : Z) (text : str) (r_body : option body)
| Failure (name : str).

(** The retry configuration of the session (line 55); the status codes
    of urllib3's [Retry.RETRY_AFTER_STATUS_CODES]. *)
Module Retry.

Definition total : nat := 5.
Definition status_forcelist : list Z := [429; 500; 502; 503; 504]%Z.
Definition allowed_methods : list http_method := [GET; POST; PUT].
Definition RETRY_AFTER_STATUS_CODES : list Z := [413; 429; 503]%Z.

Definition method_eqb (a b : http_method) : bool :=
  match a, b with
  | GET, GET | POST, POST | PUT, PUT => true
  | _, _ => false
  end.

Definition is_method_retryable (m : http_method) : bool :=
  existsb (method_eqb m) allowed_methods.

(** [Retry.is_retry(method, status_code, has_retry_after)], for a retry
    object whose [total] has come down to [left]. *)
Definition is_retry (left : nat) (m : http_method) (status_code : Z)
  (has_retry_after : bool) : bool :=
  is_method_retryable m &&
  (existsb (Z.eqb status_code) status_forcelist
   || (negb (left =? 0) && has_retry_after
       && existsb (Z.eqb status_code) RETRY_AFTER_STATUS_CODES)).

End Retry.

Inductive exception :=
| ShopifyError (msg : str)
| OtherException (name : str).

Inductive result (A : Type) :=
| Return (a : A)
| Raise (e : exception).

Arguments Return {A} a.
Arguments Raise {A} e.

Definition is_return {A} (r : result A) : bool :=
  match r with Return _ => true | Raise _ => false end.

Definition is_shopify_error {A} (r : result A) : bool :=
  match r with Raise (ShopifyError _) => true | _ => false end.

Definition is_other_exception {A} (r : result A) : bool :=
  match r with Raise (OtherException _) => true | _ => false end.

(** The records appended to [logs], by their ["status"]. *)
Inductive log_record :=
| LogSkipped (row_ix : nat) (title sku : str) (reason : str)
| LogImageError (row_ix : nat) (title sku : str) (product_id : option Z)
    (error : str) (filename : str)
| LogCreated (row_ix : nat) (title sku : str) (product_id : option Z)
    (handle : option str) (images_attached : nat)
| LogError (row_ix : nat) (title sku : str) (error : str).

Definition status (l : log_record) : string :=
  match l with
  | LogSkipped _ _ _ _ => "skipped"
  | LogImageError _ _ _ _ _ _ => "image_error"
  | LogCreated _ _ _ _ _ _ => "created"
  | LogError _ _ _ _ => "error"
  end.

Definition log_row (l : log_record) : nat :=
  match l with
  | LogSkipped i _ _ _ => i
  | LogImageError i _ _ _ _ _ => i
  | LogCreated i _ _ _ _ _ => i
  | LogError i _ _ _ => i
  end.

(** {"attachment": b64, "filename": fname} *)
Record image := { attachment : str; filename : str }.

(** The [image_error] records of a row for the images whose call ended in
    [ShopifyError], in the order of the images. *)
Definition image_error_logs (i : nat) (title sku : str) (product_id : option Z)
  (imgs : list image) (outs : list (result body)) : list log_record :=
  flat_map
    (fun io =>
       match snd io with
       | Raise (ShopifyError msg) =>
           [LogImageError i title sku product_id (firstn 300 msg)
              (filename (fst io))]
       | _ => []
       end)
    (combine imgs outs).

(** The note shown when the SEO update raised [ShopifyError]. *)
Definition seo_infos {A} (title : str) (seo : result A) : list (str * str) :=
  match seo with
  | Raise (ShopifyError msg) => [(title, msg)]
  | _ => []
  end.

(** [prod = res.get("product", {})], for the [prod.get] that follow:
    [None] is the [AttributeError] that [res.get] raises on a body that is
    not an object, or [prod.get] on a product that is not one. *)
Definition product_of (res : body) : option product_json :=
  match res with
  | JsonObject None => Some {| p_id := None; p_handle := None |}
  | JsonObject (Some (ProductObject p)) => Some p
  | JsonObject (Some ProductOther) => None
  | JsonOther => None
  end.

(** The number of calls that returned. *)
Definition count_attached (outs : list (result body)) : nat :=
  List.length (filter is_return outs).

(** The state of a run: the requests sent to the remote API so far, the
    [logs] list, and the notes shown with [st.info]. *)
Record world := {
  calls : list request;
  logs : list log_record;
  infos : list (str * str)
}.

(** ** A state and exception monad for the run *)

Module Run.

Definition M (S A : Type) := S -> result A * S.

Definition ret {S A} (a : A) : M S A := fun s => (Return a, s).

Definition raise {S A} (e : exception) : M S A := fun s => (Raise e, s).

Definition bind {S A B} (m : M S A) (k : A -> M S B) : M S B :=
  fun s =>
    match m s with
    | (Return a, s') => k a s'
    | (Raise e, s') => (Raise e, s')
    end.

(** [try: body / except ShopifyError as e: handler(str(e))]: any other
    exception passes through. *)
Definition try_except {S A} (body : M S A) (handler : str -> M S A) : M S A :=
  fun s =>
    match body s with
    | (Raise (ShopifyError msg), s') => handler msg s'
    | other => other
    end.

(** A computation that only adds calls to those already made; [proj]
    reads the calls in the state. *)
Definition grows {S A} (proj : S -> list request) (m : M S A) : Prop :=
  forall s, exists more, proj (snd (m s)) = proj s ++ more.

End Run.

Import Run.

Declare Scope run_scope.
Delimit Scope run_scope with run.
Notation "x <- m ;; k" := (bind m (fun x => k))
  (at level 61, m at next level, right associativity) : run_scope.
Notation "m ;;; k" := (bind m (fun _ => k))
  (at level 61, right associativity) : run_scope.

(** Instances of the interpreter's tables for closed examples: text whose
    code points outside ASCII have neither a case mapping nor a
    decomposition, and an encoder that writes each byte as one code point. *)
Definition lower_plain (s : str) : str := s.
Definition nfkd_plain (s : str) : str := s.
Definition b64_plain (b : bytes) : str := List.map Byte.to_N b.

(** ** The store host (lines 31-41) *)

Module Host.

Definition is_slash (c : char) : bool := (c =? slash)%N.

(** A letter of a pattern compiled with [re.I]: the text character may be
    the letter in either case. *)
Definition letter (small capital : char) (c : char) : bool :=
  ((c =? small) || (c =? capital))%N.

(** The letter s under [re.I], which the long s (U+017F) matches too. *)
Definition letter_s (c : char) : bool :=
  ((c =? 115) || (c =? 83) || (c =? 383))%N.

Definition exactly (x : char) (c : char) : bool := (c =? x)%N.

(** The rest of the text after a prefix whose characters pass the tests of
    the pattern, one each. *)
Fixpoint drop_prefix_by (pattern : list (char -> bool)) (s : str)
  : option str :=
  match pattern, s with
  | [], _ => Some s
  | p :: pattern', c :: s' =>
      if p c then drop_prefix_by pattern' s' else None
  | _ :: _, [] => None
  end.

Definition http : list (char -> bool) :=
  [letter 104%N 72%N; letter 116%N 84%N; letter 116%N 84%N;
   letter 112%N 80%N].

Definition colon_slash_slash : list (char -> bool) :=
  [exactly 58%N; exactly slash; exactly slash].

(** [re.sub(r"^https?://", "", s, flags=re.I)]: the optional s is tried
    first. *)
Definition strip_scheme (s : str) : str :=
  match drop_prefix_by (http ++ [letter_s] ++ colon_slash_slash) s with
  | Some rest => rest
  | None =>
      match drop_prefix_by (http ++ colon_slash_slash) s with
      | Some rest => rest
      | None => s
      end
  end.

(** [s.replace(old, "")] for a non-empty [old]: the occurrences are taken
    from the left and do not overlap.  [skip] counts the characters of an
    occurrence that are still to be dropped. *)
Fixpoint remove_from (old : str) (skip : nat) (s : str) : str :=
  match s with
  | [] => []
  | c :: t =>
      match skip with
      | S k => remove_from old k t
      | 0 =>
          if startswith old s then remove_from old (List.length old - 1) t
          else c :: remove_from old 0 t
      end
  end.

Definition remove_all (old s : str) : str := remove_from old 0 s.

Definition normalize_store_host (s : str) : str :=
  let s := strip s in
  let s := strip_scheme s in
  let s := remove_all (u "/admin") s in
  strip_by is_slash s.

(** [bool(h) and ("." in h or h.endswith("myshopify.com"))] *)
Definition valid_host (h : str) : bool :=
  truthy h && (contains (u ".") h || endswith (u "myshopify.com") h).

End Host.

Import Host.

(** ** Log records *)

(** The record that closes a row: every status but [image_error]. *)
Definition is_primary (l : log_record) : bool :=
  match l with
  | LogImageError _ _ _ _ _ _ => false
  | _ => true
  end.

(** The error detail of a record is cut: 500 characters for a row, 300 for
    an image. *)
Definition detail_bounded (l : log_record) : bool :=
  match l with
  | LogError _ _ _ e => List.length e <=? 500
  | LogImageError _ _ _ _ e _ => List.length e <=? 300
  | _ => true
  end.

(** An answer that every call of the program takes as a success: a
    status below 400 and a body that is a JSON object whose product, when
    it has one, is an object. *)
Definition accepted (o : wire_outcome) : bool :=
  match o with
  | Answered status_code _ _ (Some res) =>
      (status_code <? 400)%Z &&
      match product_of res with Some _ => true | None => false end
  | _ => false
  end.

(** A record of the row [i] with its detail within the bound. *)
Definition row_record (i : nat) (l : log_record) : bool :=
  (log_row l =? i) && detail_bounded l.

(** A computation that adds at most [n] calls to those already made. *)
Definition adds_at_most {S A} (proj : S -> list request) (n : nat)
  (m : M S A) : Prop :=
  forall s, exists more,
    proj (snd (m s)) = proj s ++ more /\ List.length more <= n.

(** A tag as the normalization leaves it: not empty, without white space
    at its ends, without a comma. *)
Definition is_tag (t : str) : Prop :=
  t <> [] /\ strip t = t /\ ~ In comma t.

(** Sample inputs: the default settings of the sidebar, with the maximum
    of images at 10 and at 0; a row with a title and a SKU and no other
    column; a row with a title of punctuation only; an index of two images
    of the first row; and remote APIs that answer by the number of
    requests sent before. *)
Module Sample.

Definition settings (max_images : nat) : config :=
  {| default_vendor := u "Brand";
     default_product_type := u "Altro";
     default_price := u "0.0";
     default_status := u "active";
     inventory_policy := u "deny";
     inventory_qty_default := 0;
     max_images_per_product := max_images |}.

Definition titled (title : string) (sku : option cell) : row :=
  {| col_titolo_prodotto := Some (Text (u title));
     col_sku := sku;
     col_descrizione := None;
     col_collezioni := None;
     col_tag := None;
     col_titolo_della_pagina := None;
     col_meta_descrizione := None;
     col_handle_url := None |}.

Definition red_mug : row := titled "Red Mug" (Some (Text (u "MUG01"))).

Definition punctuation : row := titled "!!!" None.

Definition two_images : dict bytes :=
  [(u "mug01-a.jpg", [Byte.x01]); (u "mug01-b.jpg", [Byte.x02])].

Definition created : body :=
  JsonObject
    (Some (ProductObject
             {| p_id := Some 7%Z; p_handle := Some (u "red-mug") |})).

Definition ok : wire_outcome := Answered 201 false [] (Some created).

Definition server_error : wire_outcome := Answered 500 false (u "down") None.

Definition unprocessable : wire_outcome :=
  Answered 422 false (u "invalid") None.

(** Always answers 201. *)
Definition remote_ok (history : list request) (_ : request) : wire_outcome :=
  ok.

(** Answers 422 to the first three requests, then 201. *)
Definition remote_recovering (history : list request) (_ : request)
  : wire_outcome :=
  if List.length history <? 3 then unprocessable else ok.

(** Always answers 422. *)
Definition remote_rejecting (history : list request) (_ : request)
  : wire_outcome :=
  unprocessable.

(** The connection fails for the first eighteen requests, then 201. *)
Definition remote_unreachable (history : list request) (_ : request)
  : wire_outcome :=
  if List.length history <? 18 then Unreachable else ok.

(** Answers 201 to the first request and 500 to all the others. *)
Definition remote_one_bad_image (history : list request) (_ : request)
  : wire_outcome :=
  if List.length history <? 1 then ok else server_error.

(** Answers 201 to the first request, 422 to the next four, then 201. *)
Definition remote_rejecting_first_image (history : list request) (_ : request)
  : wire_outcome :=
  if List.length history <? 1 then ok
  else if List.length history <? 5 then unprocessable else ok.

(** Answers 201 with a body whose product is null. *)
Definition remote_null_product (history : list request) (_ : request)
  : wire_outcome :=
  Answered 201 false [] (Some (JsonObject (Some ProductOther))).

End Sample.

(** More sample inputs: rows with missing cells, an index with a file
    whose name contains nan, and an archive of three entries. *)
Module MoreSamples.

Definition all_missing : row :=
  {| col_titolo_prodotto := Some NaN;
     col_sku := Some NaN;
     col_descrizione := Some NaN;
     col_collezioni := Some NaN;
     col_tag := Some NaN;
     col_titolo_della_pagina := Some NaN;
     col_meta_descrizione := Some NaN;
     col_handle_url := Some NaN |}.

Definition fruit : dict bytes := [(u "banana.jpg", [Byte.x03])].

(** A row whose title cell is empty, with a SKU. *)
Definition untitled : row :=
  {| col_titolo_prodotto := Some NaN;
     col_sku := Some (Text (u "MUG01"));
     col_descrizione := None;
     col_collezioni := None;
     col_tag := None;
     col_titolo_della_pagina := None;
     col_meta_descrizione := None;
     col_handle_url := None |}.

(** A row with a title of punctuation only and an empty handle cell. *)
Definition unnamed_handle : row :=
  {| col_titolo_prodotto := Some (Text (u "!!!"));
     col_sku := None;
     col_descrizione := None;
     col_collezioni := None;
     col_tag := None;
     col_titolo_della_pagina := None;
     col_meta_descrizione := None;
     col_handle_url := Some NaN |}.

Definition photos : ZipFile :=
  [ {| e_name := u "photos/MUG01.JPG"; e_data := [Byte.x01] |};
    {| e_name := u "photos/"; e_data := [] |};
    {| e_name := u "notes.txt"; e_data := [Byte.x02] |} ].

End MoreSamples.

Section App.

(** [str.lower] on text that is not all ASCII (the Unicode case mapping). *)
Variable unicode_lower : str -> str.

(** [unicodedata.normalize("NFKD", s)] *)
Variable nfkd : str -> str.

(** [base64.b64encode(content).decode("utf-8")] *)
Variable b64encode : bytes -> str.

(** The remote API: the outcome of one HTTP exchange, given the requests
    sent before. *)
Variable remote : list request -> request -> wire_outcome.

(** [s.lower()]: ASCII text is lowered letter by letter. *)
Definition lower (s : str) : str :=
  if forallb is_ascii s then List.map ascii_lower s else unicode_lower s.

(** *** slugify (the fallback of lines 17-20) *)

(** The class [[^a-zA-Z0-9-]]. *)
Definition not_slug_char (c : char) : bool :=
  negb (is_lower c || is_upper c || is_digit c || is_hyphen c).

(** [.encode("ascii", "ignore").decode("ascii")] *)
Definition ascii_ignore (s : str) : str := filter is_ascii s.

Definition slugify (value : str) : str :=
  let value := ascii_ignore (nfkd value) in
  let value := strip_by is_hyphen (re_sub_runs not_slug_char (lower value)) in
  re_sub_runs is_hyphen value.

(** *** build_image_index_from_zip *)

Definition supported_ext : list str :=
  [u ".jpg"; u ".jpeg"; u ".png"; u ".gif"; u ".webp"].

(** [name.lower().endswith(supported_ext) and not name.endswith("/")] *)
Definition is_image_name (name : str) : bool :=
  existsb (fun ext => endswith ext (lower name)) supported_ext
  && negb (endswith [slash] name).

(** [name.split('/')[-1]] *)
Definition basename (name : str) : str := last (split_on slash name) [].

(** [name.split('/')[-1].lower()] *)
Definition index_key (name : str) : str := lower (basename name).

(** The entries that the index keeps under the key [k]. *)
Definition indexed_as (k : str) (e : zip_entry) : bool :=
  is_image_name (e_name e) && str_eqb (index_key (e_name e)) k.

(** The entries that the spec puts in the index under the key [k], in
    the spec's words: an entry that is not a directory (its name does not
    end in a slash), whose lowercased name ends in one of the extensions
    jpg, jpeg, png, gif, webp, keyed by its lowercased basename, the name
    with the directory path stripped. *)
Definition spec_indexed (e : zip_entry) (k : str) : Prop :=
  (forall a, e_name e <> a ++ [slash]) /\
  (exists ext a,
     In ext [u ".jpg"; u ".jpeg"; u ".png"; u ".gif"; u ".webp"] /\
     lower (e_name e) = a ++ ext) /\
  (exists dir base,
     e_name e = dir ++ base /\ ~ In slash base /\
     (dir = [] \/ exists d, dir = d ++ [slash]) /\
     k = lower base).

Definition build_image_index_from_zip (zf : ZipFile) : dict bytes :=
  fold_left
    (fun index name =>
       if is_image_name name
       then dict_set (index_key name) (zf_read zf name) index
       else index)
    (namelist zf) [].

(** *** find_images_for_product *)

Definition find_images_for_product (index : dict bytes) (keys : list str)
  : list image :=
  let keys := List.map lower (filter truthy keys) in
  flat_map
    (fun item =>
       let '(fname, content) := item in
       if existsb (fun k => contains k fname) keys
       then [{| attachment := b64encode content; filename := fname |}]
       else [])
    index.

(** *** The fields of a row (lines 212-220, 237-238) *)

Definition row_title (r : row) : str := get_text (col_titolo_prodotto r).
Definition row_sku (r : row) : str := get_text (col_sku r).
Definition row_body_html (r : row) : str := get_text (col_descrizione r).
Definition row_tags (r : row) : str := get_text_or (col_tag r).
Definition row_seo_title (r : row) : str := get_text_or (col_titolo_della_pagina r).
Definition row_seo_desc (r : row) : str := get_text_or (col_meta_descrizione r).

(** The explicit handle: [str(row.get("Handle URL", "") or "").strip()] *)
Definition row_handle_url (r : row) : str := get_text_or (col_handle_url r).

(** [... or (slugify(title) if title else None)] *)
Definition row_handle (r : row) : option str :=
  if truthy (row_handle_url r) then Some (row_handle_url r)
  else if truthy (row_title r) then Some (slugify (row_title r))
  else None.

(** [[t.strip() for t in tags.split(",") if t.strip()]] *)
Definition tag_list (tags : str) : list str :=
  filter truthy (List.map strip (split_on comma tags)).

(** [", ".join(tag_list) if tag_list else None] *)
Definition tags_str (tags : str) : pyval :=
  match tag_list tags with
  | [] => VNone
  | l => VStr (join (u ", ") l)
  end.

(** [[k for k in [sku, handle] if k]] *)
Definition identity_keys (sku : str) (handle : option str) : list str :=
  flat_map
    (fun k => match k with
              | Some s => if truthy s then [s] else []
              | None => []
              end)
    [Some sku; handle].

(** [any(k in fname for k in keys)] for the keys of a row, lowered. *)
Definition key_matches (sku : str) (handle : option str) (fname : str) : bool :=
  existsb (fun k => contains k fname)
    (List.map lower (filter truthy (identity_keys sku handle))).

(** The list that [find_images_for_product] returns for the row. *)
Definition images_matched (index : dict bytes) (r : row) : list image :=
  find_images_for_product index (identity_keys (row_sku r) (row_handle r)).

(** [images_found] (lines 241-246). *)
Definition images_found (cfg : config) (index : dict bytes) (r : row)
  : list image :=
  if nonempty index then
    let found := images_matched index r in
    let m := max_images_per_product cfg in
    if negb (m =? 0) && (m <? List.length found) then firstn m found else found
  else [].

Definition variant (cfg : config) (r : row) : pyval :=
  VDict [ (u "sku", if truthy (row_sku r) then VStr (row_sku r) else VNone);
          (u "price", VStr (default_price cfg));
          (u "inventory_policy", VStr (inventory_policy cfg));
          (u "inventory_management", VStr (u "shopify"));
          (u "inventory_quantity", VInt (Z.of_N (inventory_qty_default cfg)));
          (u "requires_shipping", VBool true);
          (u "taxable", VBool true) ].

(** [product_payload] (lines 249-259). *)
Definition product_payload (cfg : config) (r : row) : dict pyval :=
  let payload :=
    [ (u "title", VStr (row_title r));
      (u "body_html", VStr (row_body_html r));
      (u "vendor", VStr (default_vendor cfg));
      (u "product_type", VStr (default_product_type cfg));
      (u "status", VStr (default_status cfg));
      (u "tags", tags_str (row_tags r));
      (u "variants", VList [variant cfg r]) ] in
  match row_handle r with
  | Some h => if truthy h then dict_set (u "handle") (VStr h) payload else payload
  | None => payload
  end.

(** *** api_post, api_put (lines 75-87) *)

Definition str_of_id (product_id : option Z) : str :=
  match product_id with
  | Some z => str_of_Z z
  | None => u "None"
  end.

Definition path (e : endpoint) : str :=
  match e with
  | Products => u "/products.json"
  | ProductImages product_id =>
      u "/products/" ++ str_of_id product_id ++ u "/images.json"
  | Product product_id =>
      u "/products/" ++ str_of_id product_id ++ u ".json"
  end.

Definition method_name (m : http_method) : str :=
  match m with GET => u "GET" | POST => u "POST" | PUT => u "PUT" end.

(** f"POST {path} -> {resp.status_code}: {resp.text}" *)
Definition error_message (m : http_method) (e : endpoint) (status_code : Z)
  (text : str) : str :=
  method_name m ++ u " " ++ path e ++ u " -> " ++ str_of_Z status_code
  ++ u ": " ++ text.

(** What a call makes of the outcome of [session.post] or [session.put]:
    an exception of the transport passes through, a status of 400 or more
    raises [ShopifyError], and otherwise [resp.json()] is returned. *)
Definition response_result (m : http_method) (e : endpoint) (o : http_outcome)
  : result body :=
  match o with
  | Failure name => Raise (OtherException name)
  | Response status_code text r_body =>
      if (400 <=? status_code)%Z
      then Raise (ShopifyError (error_message m e status_code text))
      else match r_body with
           | Some json => Return json
           | None => Raise (OtherException (u "JSONDecodeError"))
           end
  end.

(** *** The session (lines 53-57)

    [session.post] and [session.put] go through the adapter mounted with
    [Retry(total=5, status_forcelist=[429, 500, 502, 503, 504],
    allowed_methods=["GET","POST","PUT"])]: the request is sent again
    after an exchange that failed and after an answer that [is_retry]
    selects, while the total is not used up; when it is, the call raises
    [ConnectionError], or [RetryError] for a selected status.  Any other
    answer is the response of the call.  [left] is what remains of the
    total. *)
Fixpoint send (left : nat) (req : request) (history : list request)
  : http_outcome * list request :=
  let history' := history ++ [req] in
  match remote history req with
  | Unreachable =>
      match left with
      | 0 => (Failure (u "ConnectionError"), history')
      | S n => send n req history'
      end
  | Answered status_code retry_after text r_body =>
      if Retry.is_retry left (r_method req) status_code retry_after then
        match left with
        | 0 => (Failure (u "RetryError"), history')
        | S n => send n req history'
        end
      else (Response status_code text r_body, history')
  end.

Definition session_request (req : request) (history : list request)
  : http_outcome * list request :=
  send Retry.total req history.

Definition api_call (m : http_method) (e : endpoint) (payload : pyval)
  : M (list request) body :=
  fun history =>
    let req := {| r_method := m; r_endpoint := e; r_json := payload |} in
    let '(o, history') := session_request req history in
    (response_result m e o, history').

Definition api_post := api_call POST.
Definition api_put := api_call PUT.

(** *** The tenacity decorator (lines 157-162, 166-171)

    [stop_after_attempt(4)], [retry_if_exception_type(ShopifyError)],
    [reraise=True]: an attempt that raises [ShopifyError] is followed by
    another one while fewer than four were made; the fourth failure, and
    any other exception at once, is raised to the caller.  The waits
    between attempts take time only. *)
Definition stop_after_attempt : nat := 4.

Fixpoint retry_loop {S A} (retries_left : nat) (op : M S A) : M S A :=
  fun s =>
    match op s with
    | (Raise (ShopifyError msg), s') =>
        match retries_left with
        | 0 => (Raise (ShopifyError msg), s')
        | S n => retry_loop n op s'
        end
    | other => other
    end.

Definition retry {S A} (op : M S A) : M S A :=
  retry_loop (stop_after_attempt - 1) op.

Definition create_request (payload : dict pyval) : pyval :=
  VDict [(u "product", VDict payload)].

Definition create_product (payload : dict pyval) : M (list request) body :=
  retry (api_post Products (create_request payload)).

Definition image_request (img : image) : pyval :=
  VDict [(u "image",
          VDict [(u "attachment", VStr (attachment img));
                 (u "filename", VStr (filename img))])].

Definition attach_image (product_id : option Z) (img : image)
  : M (list request) body :=
  retry (api_post (ProductImages product_id) (image_request img)).

(** The two calls under the retry decorator. *)
Inductive retried_call :=
| CreateProduct (payload : dict pyval)
| AttachImage (product_id : option Z) (img : image).

Definition perform (c : retried_call) : M (list request) body :=
  match c with
  | CreateProduct payload => create_product payload
  | AttachImage product_id img => attach_image product_id img
  end.

(** The request that every attempt of the call sends. *)
Definition call_request (c : retried_call) : request :=
  match c with
  | CreateProduct payload =>
      {| r_method := POST; r_endpoint := Products;
         r_json := create_request payload |}
  | AttachImage product_id img =>
      {| r_method := POST; r_endpoint := ProductImages product_id;
         r_json := image_request img |}
  end.

(** The function under the decorator: one call of [api_post]. *)
Definition undecorated (c : retried_call) : M (list request) body :=
  api_post (r_endpoint (call_request c)) (r_json (call_request c)).

(** The requests sent once [j] attempts of a call started after
    [history] have been made. *)
Fixpoint history_after (c : retried_call) (history : list request) (j : nat)
  : list request :=
  match j with
  | 0 => history
  | S j' => history_after c (snd (undecorated c history)) j'
  end.

(** The result of attempt number [j + 1] of a call started after
    [history], when the [j] attempts before it were made. *)
Definition attempt (c : retried_call) (history : list request) (j : nat)
  : result body :=
  fst (undecorated c (history_after c history j)).

(** *** update_product_metafields (lines 175-182) *)

Definition seo_update (seo_title seo_desc : str) : dict pyval :=
  let update := [] in
  let update :=
    if truthy seo_title
    then dict_set (u "metafields_global_title_tag") (VStr (firstn 70 seo_title)) update
    else update in
  if truthy seo_desc
  then dict_set (u "metafields_global_description_tag") (VStr (firstn 320 seo_desc)) update
  else update.

Definition update_product_metafields (product_id : option Z)
  (seo_title seo_desc : str) : M (list request) unit :=
  let update := seo_update seo_title seo_desc in
  if nonempty update
  then bind (api_put (Product product_id) (VDict [(u "product", VDict update)]))
            (fun _ => ret tt)
  else ret tt.

(** *** The main loop (lines 211-305) *)

(** A remote call, in the state of the run. *)
Definition lift {A} (op : M (list request) A) : M world A :=
  fun w =>
    let '(r, history) := op (calls w) in
    (r, {| calls := history; logs := logs w; infos := infos w |}).

(** [logs.append(l)] *)
Definition log_append (l : log_record) : M world unit :=
  fun w =>
    (Return tt, {| calls := calls w; logs := logs w ++ [l]; infos := infos w |}).

(** [st.info(f"SEO non aggiornato per {title}: {e}")] *)
Definition info (title e : str) : M world unit :=
  fun w =>
    (Return tt,
     {| calls := calls w; logs := logs w; infos := infos w ++ [(title, e)] |}).

(** The loop over [images_found] (lines 271-285). *)
Fixpoint attach_images (i : nat) (title sku : str) (product_id : option Z)
  (imgs : list image) (attached : nat) : M world nat :=
  match imgs with
  | [] => ret attached
  | img :: rest =>
      bind
        (try_except
           (bind (lift (attach_image product_id img))
                 (fun _ => ret (attached + 1)))
           (fun e =>
              bind (log_append
                      (LogImageError i title sku product_id (firstn 300 e)
                         (filename img)))
                   (fun _ => ret attached)))
        (fun attached' => attach_images i title sku product_id rest attached')
  end.

(** The results of [attach_image] for the images, one call after the
    other. *)
Fixpoint attach_outcomes (product_id : option Z) (imgs : list image)
  (history : list request) : list (result body) * list request :=
  match imgs with
  | [] => ([], history)
  | img :: rest =>
      let '(r, history1) := attach_image product_id img history in
      let '(rs, history2) := attach_outcomes product_id rest history1 in
      (r :: rs, history2)
  end.


(** The rest of the [try] block once [create_product] has returned
    (lines 263-295). *)
Definition with_product (i : nat) (r : row) (imgs : list image)
  (prod : product_json) : M world unit :=
  let title := row_title r in
  let sku := row_sku r in
  let product_id := p_id prod in
  (try_except
     (lift (update_product_metafields product_id (row_seo_title r) (row_seo_desc r)))
     (fun e => info title e) ;;;
   attached <- attach_images i title sku product_id imgs 0 ;;
   log_append (LogCreated i title sku product_id (p_handle prod) attached))%run.

Definition after_creation (i : nat) (r : row) (imgs : list image) (res : body)
  : M world unit :=
  match product_of res with
  | Some prod => with_product i r imgs prod
  | None => raise (OtherException (u "AttributeError"))
  end.

(** The body of the loop for the row of index [i]. *)
Definition process_row (cfg : config) (image_index : dict bytes) (i : nat)
  (r : row) : M world unit :=
  let title := row_title r in
  let sku := row_sku r in
  if negb (truthy title)
  then log_append (LogSkipped i title sku (u "Titolo mancante"))
  else
    let imgs := images_found cfg image_index r in
    let payload := product_payload cfg r in
    try_except
      (res <- lift (create_product payload) ;;
       after_creation i r imgs res)%run
      (fun e => log_append (LogError i title sku (firstn 500 e))).

(** [for i, row in df.iterrows()], from the row of index [i] on. *)
Fixpoint process_rows (cfg : config) (image_index : dict bytes) (i : nat)
  (rows : list row) : M world unit :=
  match rows with
  | [] => ret tt
  | r :: rest =>
      bind (process_row cfg image_index i r)
           (fun _ => process_rows cfg image_index (i + 1) rest)
  end.

(** The run on a data frame, from empty logs. *)
Definition start : world := {| calls := []; logs := []; infos := [] |}.

Definition main (cfg : config) (image_index : dict bytes) (df : list row)
  : result unit * world :=
  process_rows cfg image_index 0 df start.

(** * Properties *)

Set Default Proof Using "Type".

(** ** Text *)

Ltac char_cases :=
  repeat match goal with
    | |- context [(?a <=? ?b)%N] => destruct (N.leb_spec a b)
    | |- context [(?a <? ?b)%N] => destruct (N.ltb_spec a b)
    | |- context [(?a =? ?b)%N] => destruct (N.eqb_spec a b)
    end;
  simpl; try reflexivity; try discriminate; try lia.

Lemma str_eqb_eq (a b : str) : str_eqb a b = true <-> a = b.
Proof.
  revert b. induction a as [|x a IH]; destruct b as [|y b]; simpl;
    try (split; congruence).
  rewrite andb_true_iff, N.eqb_eq, IH. split.
  - intros [-> ->]. reflexivity.
  - intros H. injection H as -> ->. now split.
Qed.

Lemma str_eqb_refl (a : str) : str_eqb a a = true.
Proof. now apply str_eqb_eq. Qed.

Lemma str_eqb_neq (a b : str) : str_eqb a b = false <-> a <> b.
Proof.
  rewrite <- str_eqb_eq. destruct (str_eqb a b); split; congruence.
Qed.

Lemma lstrip_by_clean p s : starts_clean p (lstrip_by p s) = true.
Proof.
  induction s as [|c t IH]; simpl; [reflexivity|].
  destruct (p c) eqn:E; [exact IH|]. simpl. now rewrite E.
Qed.

Lemma lstrip_by_fixed p s : starts_clean p s = true -> lstrip_by p s = s.
Proof.
  destruct s as [|c t]; simpl; [reflexivity|].
  destruct (p c); [discriminate|reflexivity].
Qed.

Lemma lstrip_by_suffix p s : exists l, s = l ++ lstrip_by p s.
Proof.
  induction s as [|c t [l IH]]; simpl.
  - now exists [].
  - destruct (p c).
    + exists (c :: l). simpl. now f_equal.
    + now exists [].
Qed.

Lemma lstrip_by_snoc p a c :
  p c = false -> lstrip_by p (a ++ [c]) = lstrip_by p a ++ [c].
Proof.
  intros Hc. induction a as [|x a IH]; simpl.
  - now rewrite Hc.
  - destruct (p x); [exact IH|reflexivity].
Qed.

Lemma rstrip_by_fixed p s : starts_clean p (rev s) = true -> rstrip_by p s = s.
Proof.
  intros H. unfold rstrip_by. rewrite lstrip_by_fixed by exact H.
  apply rev_involutive.
Qed.

Lemma rstrip_by_clean_end p s : starts_clean p (rev (rstrip_by p s)) = true.
Proof.
  unfold rstrip_by. rewrite rev_involutive. apply lstrip_by_clean.
Qed.

Lemma rstrip_by_keeps_start p s :
  starts_clean p s = true -> starts_clean p (rstrip_by p s) = true.
Proof.
  destruct s as [|c t]; [reflexivity|]. simpl. intros Hc.
  unfold rstrip_by. simpl.
  rewrite lstrip_by_snoc by now destruct (p c).
  rewrite rev_app_distr. simpl. exact Hc.
Qed.

Lemma strip_by_clean p s :
  starts_clean p (strip_by p s) = true /\
  starts_clean p (rev (strip_by p s)) = true.
Proof.
  unfold strip_by. split.
  - apply rstrip_by_keeps_start, lstrip_by_clean.
  - apply rstrip_by_clean_end.
Qed.

Lemma strip_by_fixed p s :
  starts_clean p s = true -> starts_clean p (rev s) = true ->
  strip_by p s = s.
Proof.
  intros H1 H2. unfold strip_by.
  rewrite lstrip_by_fixed by exact H1. now apply rstrip_by_fixed.
Qed.

Lemma lstrip_by_Forall (P : char -> Prop) p s :
  Forall P s -> Forall P (lstrip_by p s).
Proof.
  intros H. destruct (lstrip_by_suffix p s) as [l Hl].
  rewrite Hl in H. now apply Forall_app in H.
Qed.

Lemma strip_by_Forall (P : char -> Prop) p s :
  Forall P s -> Forall P (strip_by p s).
Proof.
  intros H. unfold strip_by, rstrip_by.
  apply Forall_rev, lstrip_by_Forall, Forall_rev, lstrip_by_Forall, H.
Qed.

Lemma lstrip_by_nil p s : lstrip_by p s = [] <-> forallb p s = true.
Proof.
  induction s as [|c t IH]; simpl; [now split|].
  destruct (p c); simpl; [exact IH|]. split; discriminate.
Qed.

Lemma strip_by_nil p s : strip_by p s = [] <-> forallb p s = true.
Proof.
  unfold strip_by, rstrip_by. split.
  - intros H. apply (f_equal (@rev char)) in H.
    rewrite rev_involutive in H. simpl in H.
    apply lstrip_by_nil in H.
    destruct (lstrip_by_suffix p s) as [l Hl].
    assert (Hc := lstrip_by_clean p s).
    destruct (lstrip_by p s) as [|c t] eqn:E.
    + now apply lstrip_by_nil.
    + exfalso. simpl in Hc, H. rewrite forallb_app in H.
      apply andb_true_iff in H. destruct H as [_ H]. simpl in H.
      destruct (p c); discriminate.
  - intros H. apply lstrip_by_nil in H. now rewrite H.
Qed.

(** *** Replacing runs *)

Lemma sub_runs_none cls b s :
  Forall (fun c => cls c = false) s -> sub_runs cls b s = s.
Proof.
  intros H. revert b. induction H as [|c t Hc _ IH]; intros b; simpl.
  - reflexivity.
  - rewrite Hc. now rewrite IH.
Qed.

Lemma sub_runs_snoc cls b a c :
  cls c = false -> sub_runs cls b (a ++ [c]) = sub_runs cls b a ++ [c].
Proof.
  intros Hc. revert b. induction a as [|x a IH]; intros b; simpl.
  - now rewrite Hc.
  - destruct (cls x); [destruct b|]; simpl; now rewrite IH.
Qed.

Lemma sub_runs_Forall (P : char -> Prop) cls b s :
  P hyphen -> Forall (fun c => cls c = false -> P c) s ->
  Forall P (sub_runs cls b s).
Proof.
  intros Hh H. revert b. induction H as [|c t Hc _ IH]; intros b; simpl.
  - constructor.
  - destruct (cls c) eqn:E.
    + destruct b; [apply IH|constructor; [exact Hh|apply IH]].
    + constructor; [now apply Hc|apply IH].
Qed.

Lemma sub_runs_idem cls s :
  cls hyphen = true ->
  sub_runs cls false (sub_runs cls false s) = sub_runs cls false s /\
  sub_runs cls true (sub_runs cls true s) = sub_runs cls true s.
Proof.
  intros Hh. induction s as [|c t [IH1 IH2]]; simpl; [now split|].
  destruct (cls c) eqn:E; simpl; rewrite ?Hh, ?E, ?IH1, ?IH2; now split.
Qed.

Lemma sub_runs_keeps_start cls s :
  starts_clean cls s = true -> starts_clean cls (sub_runs cls false s) = true.
Proof.
  destruct s as [|c t]; simpl; [reflexivity|].
  destruct (cls c) eqn:E; [discriminate|]. simpl. now rewrite E.
Qed.

Lemma sub_runs_keeps_end cls s :
  starts_clean cls (rev s) = true ->
  starts_clean cls (rev (sub_runs cls false s)) = true.
Proof.
  destruct (rev s) as [|c r] eqn:E; intros H.
  - apply (f_equal (@rev char)) in E. rewrite rev_involutive in E.
    subst s. reflexivity.
  - apply (f_equal (@rev char)) in E. rewrite rev_involutive in E.
    subst s. simpl in *.
    rewrite sub_runs_snoc by now destruct (cls c).
    rewrite rev_app_distr. simpl. exact H.
Qed.

(** ** slugify *)

Lemma slug_char_ascii c : is_slug_char c = true -> is_ascii c = true.
Proof.
  unfold is_slug_char, is_ascii, is_lower, is_digit, is_hyphen, hyphen.
  char_cases.
Qed.

Lemma slug_char_not_upper c : is_slug_char c = true -> ascii_lower c = c.
Proof.
  unfold is_slug_char, ascii_lower, is_upper, is_lower, is_digit, is_hyphen, hyphen.
  char_cases.
Qed.

Lemma slug_char_kept c : is_slug_char c = true -> not_slug_char c = false.
Proof.
  unfold is_slug_char, not_slug_char, is_upper, is_lower, is_digit, is_hyphen, hyphen.
  char_cases.
Qed.

Lemma lowered_slug_char c :
  not_slug_char (ascii_lower c) = false -> is_slug_char (ascii_lower c) = true.
Proof.
  unfold is_slug_char, not_slug_char, ascii_lower, is_upper, is_lower,
    is_digit, is_hyphen, hyphen.
  destruct (N.leb_spec 65 c), (N.leb_spec c 90); simpl; char_cases.
Qed.

Lemma lower_ascii s :
  forallb is_ascii s = true -> lower s = List.map ascii_lower s.
Proof. intros H. unfold lower. now rewrite H. Qed.

Lemma ascii_ignore_ascii s : forallb is_ascii (ascii_ignore s) = true.
Proof.
  apply forallb_forall. intros c Hc. now apply filter_In in Hc.
Qed.

Lemma ascii_ignore_fixed s : forallb is_ascii s = true -> ascii_ignore s = s.
Proof.
  intros H. unfold ascii_ignore. induction s as [|c t IH]; simpl in *.
  - reflexivity.
  - apply andb_true_iff in H. destruct H as [Hc Ht].
    rewrite Hc. now rewrite IH.
Qed.

Lemma slugify_chars x : Forall (fun c => is_slug_char c = true) (slugify x).
Proof.
  unfold slugify, re_sub_runs.
  rewrite lower_ascii by apply ascii_ignore_ascii.
  apply sub_runs_Forall; [reflexivity|].
  apply Forall_impl with (P := fun c => is_slug_char c = true); [auto|].
  apply strip_by_Forall, sub_runs_Forall; [reflexivity|].
  apply Forall_forall. intros c Hc. apply in_map_iff in Hc.
  destruct Hc as [c0 [<- _]]. apply lowered_slug_char.
Qed.

Lemma slugify_clean x :
  starts_clean is_hyphen (slugify x) = true /\
  starts_clean is_hyphen (rev (slugify x)) = true.
Proof.
  unfold slugify, re_sub_runs.
  destruct (strip_by_clean is_hyphen
              (sub_runs not_slug_char false (lower (ascii_ignore (nfkd x)))))
    as [H1 H2].
  split; [now apply sub_runs_keeps_start|now apply sub_runs_keeps_end].
Qed.

Lemma slugify_collapsed x : re_sub_runs is_hyphen (slugify x) = slugify x.
Proof.
  unfold slugify, re_sub_runs. now apply sub_runs_idem.
Qed.

(** A text in the form that slugify produces is left as it is. *)
Lemma slugify_fixed s :
  (forall t, forallb is_ascii t = true -> nfkd t = t) ->
  Forall (fun c => is_slug_char c = true) s ->
  starts_clean is_hyphen s = true ->
  starts_clean is_hyphen (rev s) = true ->
  re_sub_runs is_hyphen s = s ->
  slugify s = s.
Proof.
  intros Hn Hs H1 H2 H3.
  assert (Ha : forallb is_ascii s = true).
  { apply forallb_forall. intros c Hc. apply slug_char_ascii.
    now apply (proj1 (Forall_forall _ _) Hs). }
  unfold slugify. rewrite (Hn s Ha), (ascii_ignore_fixed s Ha), (lower_ascii s Ha).
  assert (Hm : List.map ascii_lower s = s).
  { clear - Hs. induction Hs as [|c t Hc _ IH]; simpl; [reflexivity|].
    now rewrite (slug_char_not_upper c Hc), IH. }
  rewrite Hm. unfold re_sub_runs at 2.
  rewrite sub_runs_none.
  - now rewrite strip_by_fixed.
  - apply Forall_impl with (2 := Hs). apply slug_char_kept.
Qed.

(** C9: with a normalisation that leaves ASCII text unchanged, as NFKD
    does, slugify is idempotent: slugify (slugify x) = slugify x for every
    text x. *)
Theorem slugify_idempotent :
  (forall t, forallb is_ascii t = true -> nfkd t = t) ->
  forall x, slugify (slugify x) = slugify x.
Proof.
  intros Hn x. destruct (slugify_clean x) as [H1 H2].
  apply slugify_fixed; auto using slugify_chars, slugify_collapsed.
Qed.

(** ** Containment *)

Lemma startswith_spec p s : startswith p s = true <-> exists b, s = p ++ b.
Proof.
  revert s. induction p as [|a p IH]; intros s; simpl.
  - split; [intros _; now exists s|reflexivity].
  - destruct s as [|c s].
    + split; [discriminate|intros [b Hb]; discriminate].
    + rewrite andb_true_iff, N.eqb_eq, IH. split.
      * intros [-> [b ->]]. now exists b.
      * intros [b Hb]. injection Hb as -> ->. split; [reflexivity|now exists b].
Qed.

Lemma contains_spec k s :
  contains k s = true <-> exists a b, s = a ++ k ++ b.
Proof.
  induction s as [|c s IH].
  - simpl. rewrite orb_false_r, startswith_spec. split.
    + intros [b Hb]. now exists [], b.
    + intros [a [b Hb]]. destruct a; [now exists b|discriminate].
  - simpl. rewrite orb_true_iff, startswith_spec, IH. split.
    + intros [[b Hb]|[a [b Hb]]].
      * now exists [], b.
      * exists (c :: a), b. simpl. now f_equal.
    + intros [a [b Hb]]. destruct a as [|x a].
      * left. now exists b.
      * right. injection Hb as _ Hb. now exists a, b.
Qed.

Lemma endswith_spec p s : endswith p s = true <-> exists a, s = a ++ p.
Proof.
  unfold endswith. rewrite startswith_spec. split.
  - intros [b Hb]. exists (rev b).
    apply (f_equal (@rev char)) in Hb.
    now rewrite rev_involutive, rev_app_distr, rev_involutive in Hb.
  - intros [a ->]. exists (rev a). now rewrite rev_app_distr.
Qed.

(** ** Dictionaries *)

Lemma dict_get_set {V} (d : dict V) k v k' :
  dict_get (dict_set k v d) k' =
  if str_eqb k k' then Some v else dict_get d k'.
Proof.
  induction d as [|[k0 v0] t IH]; simpl.
  - reflexivity.
  - destruct (str_eqb k0 k) eqn:E; simpl.
    + apply str_eqb_eq in E. subst k0. now destruct (str_eqb k k').
    + rewrite IH. destruct (str_eqb k0 k') eqn:E'; [|reflexivity].
      apply str_eqb_eq in E'. subst k0.
      destruct (str_eqb k k') eqn:E2; [|reflexivity].
      apply str_eqb_eq in E2. subst k'. now rewrite str_eqb_refl in E.
Qed.

Lemma keys_dict_set {V} (d : dict V) k v k' :
  In k' (keys (dict_set k v d)) <-> k' = k \/ In k' (keys d).
Proof.
  unfold keys. induction d as [|[k0 v0] t IH]; simpl.
  - split; intros [H|[]]; left; congruence.
  - destruct (str_eqb k0 k) eqn:E; simpl.
    + apply str_eqb_eq in E. subst k0.
      split; [intros [H|H]; auto|intros [H|[H|H]]; auto].
    + rewrite IH. split; intros [H|[H|H]]; auto.
Qed.

Lemma dict_set_NoDup {V} (d : dict V) k v :
  NoDup (keys d) -> NoDup (keys (dict_set k v d)).
Proof.
  induction d as [|[k0 v0] t IH]; simpl; intros H.
  - constructor; [intros []|constructor].
  - inversion H as [|? ? Hn Ht]; subst.
    destruct (str_eqb k0 k) eqn:E; simpl.
    + now constructor.
    + constructor; [|now apply IH].
      fold (keys (dict_set k v t)). rewrite keys_dict_set.
      intros [->|Hin]; [|now apply Hn].
      now rewrite str_eqb_refl in E.
Qed.

Lemma find_narrow {A} (p q : A -> bool) l e :
  find p l = Some e ->
  (forall x, q x = true -> p x = true) -> q e = true ->
  find q l = Some e.
Proof.
  intros H Hpq He. induction l as [|x t IH]; simpl in *; [discriminate|].
  destruct (p x) eqn:E.
  - injection H as ->. now rewrite He.
  - destruct (q x) eqn:E'; [|now apply IH].
    apply Hpq in E'. congruence.
Qed.

(** ** The image index *)

Lemma split_on_cons sep s : exists p ps, split_on sep s = p :: ps.
Proof.
  destruct s as [|c t]; simpl; [now eexists _, _|].
  destruct (c =? sep)%N; [now eexists _, _|].
  destruct (split_on sep t); now eexists _, _.
Qed.

Lemma join_split_on sep s : join [sep] (split_on sep s) = s.
Proof.
  induction s as [|c t IH]; simpl; [reflexivity|].
  destruct (split_on_cons sep t) as [p [ps E]]. rewrite E in *.
  destruct (N.eqb_spec c sep) as [->|Hc].
  - simpl in *. now rewrite IH.
  - destruct ps; simpl in *; now rewrite <- IH.
Qed.

Lemma split_on_no_sep sep s :
  Forall (fun p => ~ In sep p) (split_on sep s).
Proof.
  induction s as [|c t IH]; simpl.
  - constructor; [intros []|constructor].
  - destruct (N.eqb_spec c sep) as [->|Hc].
    + constructor; [intros []|exact IH].
    + destruct (split_on sep t) as [|p ps]; inversion IH; subst.
      * constructor; [|constructor]. intros [H|[]]. congruence.
      * constructor; [|assumption]. intros [H|H]; [congruence|contradiction].
Qed.

Lemma join_last sep p ps :
  exists dir, join [sep] (p :: ps) = dir ++ last (p :: ps) [] /\
    (dir = [] \/ exists d, dir = d ++ [sep]).
Proof.
  revert p. induction ps as [|q ps IH]; intros p.
  - exists []. simpl. now split; [|left].
  - destruct (IH q) as [dir [H1 H2]].
    exists (p ++ [sep] ++ dir). split.
    + change (join [sep] (p :: q :: ps)) with (p ++ [sep] ++ join [sep] (q :: ps)).
      change (last (p :: q :: ps) []) with (last (q :: ps) (@nil char)).
      rewrite H1. now rewrite <- !app_assoc.
    + right. destruct H2 as [->|[d ->]].
      * exists p. now rewrite app_nil_r.
      * exists (p ++ [sep] ++ d). now rewrite <- !app_assoc.
Qed.

(** The key of an entry is its name without the directory path. *)
Lemma basename_split name :
  exists dir, name = dir ++ basename name /\
    ~ In slash (basename name) /\
    (dir = [] \/ exists d, dir = d ++ [slash]).
Proof.
  unfold basename.
  destruct (split_on_cons slash name) as [p [ps E]].
  destruct (join_last slash p ps) as [dir [H1 H2]].
  exists dir. rewrite E, <- H1, <- E, join_split_on. split; [reflexivity|].
  split; [|exact H2].
  assert (H := split_on_no_sep slash name). rewrite E in *.
  apply (proj1 (Forall_forall _ _) H).
  clear. revert p. induction ps as [|q ps IH]; intros p; [now left|].
  right. apply IH.
Qed.

Lemma dict_get_keys {V} (d : dict V) k :
  In k (keys d) <-> dict_get d k <> None.
Proof.
  unfold keys. induction d as [|[k0 v0] t IH]; simpl.
  - split; [intros []|intros H; now apply H].
  - destruct (str_eqb k0 k) eqn:E.
    + apply str_eqb_eq in E. split; [discriminate|now left].
    + apply str_eqb_neq in E. rewrite <- IH.
      split; [intros [H|H]; [contradiction|exact H]|intros H; now right].
Qed.

Lemma zf_read_last zf k e :
  find (indexed_as k) (rev zf) = Some e -> zf_read zf (e_name e) = e_data e.
Proof.
  intros H. unfold zf_read.
  rewrite (find_narrow _ (fun x => str_eqb (e_name x) (e_name e)) _ e H).
  - reflexivity.
  - intros x Hx. apply str_eqb_eq in Hx. apply find_some in H.
    unfold indexed_as in *. rewrite Hx. apply H.
  - apply str_eqb_refl.
Qed.

(** The index after the names of [es], read from the archive [zf]. *)
Lemma index_fold zf es d k :
  dict_get
    (fold_left
       (fun index name =>
          if is_image_name name
          then dict_set (index_key name) (zf_read zf name) index
          else index)
       (List.map e_name es) d) k =
  match find (indexed_as k) (rev es) with
  | Some e => Some (zf_read zf (e_name e))
  | None => dict_get d k
  end.
Proof.
  induction es as [|e es IH] using rev_ind; [reflexivity|].
  rewrite map_app, fold_left_app, rev_app_distr. simpl.
  unfold indexed_as at 1.
  destruct (is_image_name (e_name e)); simpl.
  - rewrite dict_get_set.
    destruct (str_eqb (index_key (e_name e)) k); [reflexivity|exact IH].
  - exact IH.
Qed.

Lemma index_fold_NoDup zf names d :
  NoDup (keys d) ->
  NoDup (keys
    (fold_left
       (fun index name =>
          if is_image_name name
          then dict_set (index_key name) (zf_read zf name) index
          else index)
       names d)).
Proof.
  revert d. induction names as [|n names IH]; intros d H; simpl; [exact H|].
  apply IH. destruct (is_image_name n); [now apply dict_set_NoDup|exact H].
Qed.

Lemma index_lookup zf k :
  dict_get (build_image_index_from_zip zf) k =
  option_map e_data (find (indexed_as k) (rev zf)).
Proof.
  unfold build_image_index_from_zip, namelist. rewrite index_fold.
  destruct (find (indexed_as k) (rev zf)) as [e|] eqn:E; simpl; [|reflexivity].
  now rewrite (zf_read_last zf k e E).
Qed.

Lemma ends_with_slash (l dir' d : list char) :
  l <> [] -> dir' ++ l = d ++ [slash] -> In slash l.
Proof.
  intros Hl H. apply (f_equal (@rev char)) in H.
  rewrite !rev_app_distr in H. simpl in H.
  destruct (rev l) as [|x rl] eqn:E.
  - apply (f_equal (@rev char)) in E. rewrite rev_involutive in E.
    simpl in E. contradiction.
  - simpl in H. injection H as -> _. apply in_rev. rewrite E. now left.
Qed.

(** The part of a name after its last slash is determined by the name. *)
Lemma basename_unique (dir base dir' base' : str) :
  dir ++ base = dir' ++ base' ->
  ~ In slash base -> ~ In slash base' ->
  (dir = [] \/ exists d, dir = d ++ [slash]) ->
  (dir' = [] \/ exists d, dir' = d ++ [slash]) ->
  base = base'.
Proof.
  intros H Hb Hb' Hd Hd'. apply app_eq_app in H.
  destruct H as [l [[H1 H2]|[H1 H2]]].
  - destruct l as [|x l]; [now rewrite H2|]. exfalso.
    destruct Hd as [->|[d ->]]; [now destruct dir'|].
    apply Hb'. rewrite H2. apply in_or_app. left.
    apply (ends_with_slash (x :: l) dir' d); [discriminate|now symmetry].
  - destruct l as [|x l]; [now rewrite H2|]. exfalso.
    destruct Hd' as [->|[d ->]]; [now destruct dir|].
    apply Hb. rewrite H2. apply in_or_app. left.
    apply (ends_with_slash (x :: l) dir d); [discriminate|now symmetry].
Qed.

(** The test and the key of the code are those of the spec. *)
Lemma indexed_as_spec e k : indexed_as k e = true <-> spec_indexed e k.
Proof.
  unfold indexed_as, is_image_name, spec_indexed, index_key.
  rewrite !andb_true_iff, negb_true_iff, str_eqb_eq, existsb_exists.
  split.
  - intros [[[ext [Hin Hend]] Hdir] Hk]. split; [|split].
    + intros a Ha.
      assert (Hs : endswith [slash] (e_name e) = true)
        by (apply endswith_spec; now exists a).
      congruence.
    + apply endswith_spec in Hend. destruct Hend as [a Ha].
      now exists ext, a.
    + destruct (basename_split (e_name e)) as [dir [H1 [H2 H3]]].
      exists dir, (basename (e_name e)). now repeat split.
  - intros [Hdir [[ext [a [Hin Ha]]] [dir [base [H1 [H2 [H3 Hk]]]]]]].
    split; [split|].
    + exists ext. split; [exact Hin|]. apply endswith_spec. now exists a.
    + destruct (endswith [slash] (e_name e)) eqn:E; [|reflexivity].
      apply endswith_spec in E. destruct E as [a' Ha']. now apply Hdir in Ha'.
    + destruct (basename_split (e_name e)) as [dir' [H1' [H2' H3']]].
      rewrite Hk. f_equal.
      apply (basename_unique dir' _ dir base); auto. congruence.
Qed.

Lemma find_skip {A} (p : A -> bool) after : forall l,
  (forall x, In x after -> p x = false) ->
  find p (rev after ++ l) = find p l.
Proof.
  induction after as [|a after IH]; intros l H; [reflexivity|].
  simpl. rewrite <- app_assoc. rewrite IH.
  - simpl. now rewrite (H a (or_introl eq_refl)).
  - intros x Hx. apply H. now right.
Qed.

(** [find] on the reversed list gives the last element that passes. *)
Lemma find_last_spec {A} (p : A -> bool) l e :
  find p (rev l) = Some e <->
  exists before after,
    l = before ++ e :: after /\ p e = true /\
    forall x, In x after -> p x = false.
Proof.
  split.
  - induction l as [|x l IH] using rev_ind; [discriminate|].
    rewrite rev_app_distr. simpl. destruct (p x) eqn:E.
    + intros H. injection H as ->. exists l, []. split; [reflexivity|].
      split; [exact E|intros y []].
    + intros H. destruct (IH H) as [before [after [-> [He Ha]]]].
      exists before, (after ++ [x]). split; [now rewrite <- app_assoc|].
      split; [exact He|].
      intros y Hy. apply in_app_or in Hy. destruct Hy as [Hy|[<-|[]]]; auto.
  - intros [before [after [-> [He Ha]]]].
    rewrite rev_app_distr. simpl. rewrite <- app_assoc.
    rewrite find_skip by exact Ha. simpl. now rewrite He.
Qed.

(** C6: the keys of the index are distinct; the index has a key exactly
    for the entries that are not directories and whose lowercased name
    ends in jpg, jpeg, png, gif or webp, under their lowercased basename
    (the name without its directory path); and a key holds the content of
    the last such entry of the archive with this lowercased basename. *)
Theorem image_index_exact (zf : ZipFile) :
  NoDup (keys (build_image_index_from_zip zf)) /\
  (forall k,
     In k (keys (build_image_index_from_zip zf)) <->
     exists e, In e zf /\ spec_indexed e k) /\
  (forall k data,
     dict_get (build_image_index_from_zip zf) k = Some data <->
     exists before e after,
       zf = before ++ e :: after /\
       spec_indexed e k /\ e_data e = data /\
       forall e', In e' after -> ~ spec_indexed e' k).
Proof.
  assert (Hlook : forall k data,
     dict_get (build_image_index_from_zip zf) k = Some data <->
     exists before e after,
       zf = before ++ e :: after /\
       spec_indexed e k /\ e_data e = data /\
       forall e', In e' after -> ~ spec_indexed e' k).
  { intros k data. rewrite index_lookup. split.
    - destruct (find (indexed_as k) (rev zf)) as [e|] eqn:E; [|discriminate].
      simpl. intros H. injection H as <-.
      apply find_last_spec in E. destruct E as [before [after [Hz [He Ha]]]].
      exists before, e, after. split; [exact Hz|].
      split; [now apply indexed_as_spec|]. split; [reflexivity|].
      intros e' Hin Hs. apply indexed_as_spec in Hs.
      rewrite (Ha e' Hin) in Hs. discriminate.
    - intros [before [e [after [Hz [He [Hd Ha]]]]]].
      assert (E : find (indexed_as k) (rev zf) = Some e).
      { apply find_last_spec. exists before, after. split; [exact Hz|].
        split; [now apply indexed_as_spec|].
        intros x Hx. destruct (indexed_as k x) eqn:Ex; [|reflexivity].
        apply indexed_as_spec in Ex. now apply Ha in Ex. }
      rewrite E. simpl. now rewrite Hd. }
  split; [|split; [|exact Hlook]].
  - apply index_fold_NoDup. constructor.
  - intros k. rewrite dict_get_keys. split.
    + destruct (dict_get (build_image_index_from_zip zf) k) as [data|] eqn:E;
        [intros _|now intros []].
      apply Hlook in E. destruct E as [before [e [after [Hz [He _]]]]].
      exists e. split; [|exact He]. rewrite Hz. apply in_or_app. right. now left.
    + intros [e [Hin He]] Hnone. rewrite index_lookup in Hnone.
      destruct (find (indexed_as k) (rev zf)) as [e'|] eqn:E; [discriminate|].
      assert (Hf := find_none _ _ E e (proj1 (in_rev zf e) Hin)).
      apply indexed_as_spec in He. congruence.
Qed.

(** ** Matching images to a row *)

Lemma truthy_spec (s : str) : truthy s = true <-> s <> [].
Proof. destruct s; simpl; split; congruence. Qed.

Lemma identity_keys_spec sku handle k :
  In k (filter truthy (identity_keys sku handle)) <->
  In (Some k) [Some sku; handle] /\ k <> [].
Proof.
  rewrite filter_In, truthy_spec. unfold identity_keys. simpl.
  rewrite app_nil_r, in_app_iff. split.
  - intros [[H|H] Hk]; split; trivial.
    + left. destruct (truthy sku); [|destruct H].
      destruct H as [->|[]]. reflexivity.
    + right. left. destruct handle as [h|]; [|destruct H].
      destruct (truthy h); [|destruct H]. destruct H as [->|[]]. reflexivity.
  - intros [[H|[H|[]]] Hk]; split; trivial.
    + injection H as ->. left. apply truthy_spec in Hk. rewrite Hk. now left.
    + subst handle. right. apply truthy_spec in Hk. rewrite Hk. now left.
Qed.

Lemma key_matches_spec sku handle fname :
  key_matches sku handle fname = true <->
  exists k, In (Some k) [Some sku; handle] /\ k <> [] /\
    exists a b, fname = a ++ lower k ++ b.
Proof.
  unfold key_matches. rewrite existsb_exists. split.
  - intros [k' [Hin Hc]]. apply in_map_iff in Hin.
    destruct Hin as [k [<- Hin]]. apply identity_keys_spec in Hin.
    exists k. split; [apply Hin|]. split; [apply Hin|].
    now apply contains_spec.
  - intros [k [Hin [Hk Hc]]]. exists (lower k). split.
    + apply in_map, identity_keys_spec. now split.
    + now apply contains_spec.
Qed.

(** The matched list is the index, in its order, filtered by containment. *)
Lemma images_matched_filter index r :
  images_matched index r =
  List.map (fun item => {| attachment := b64encode (snd item); filename := fst item |})
    (filter (fun item => key_matches (row_sku r) (row_handle r) (fst item)) index).
Proof.
  unfold images_matched, find_images_for_product, key_matches.
  induction index as [|[fname content] t IH]; simpl; [reflexivity|].
  rewrite IH. now destruct (existsb _ _).
Qed.


(** C1, as the code has it: the images kept for a row are a prefix of the
    matched list, which is the index filtered by containment in the order
    of the index; with a positive maximum they are at most that many, and
    with the maximum 0 nothing is cut: all the matched images are kept. *)
Theorem images_found_prefix (cfg : config) (index : dict bytes) (r : row) :
  images_matched index r =
    List.map (fun item => {| attachment := b64encode (snd item); filename := fst item |})
      (filter (fun item => key_matches (row_sku r) (row_handle r) (fst item)) index) /\
  (exists rest, images_matched index r = images_found cfg index r ++ rest) /\
  match max_images_per_product cfg with
  | 0 => images_found cfg index r = images_matched index r
  | S _ => List.length (images_found cfg index r) <= max_images_per_product cfg
  end.
Proof.
  split; [apply images_matched_filter|].
  unfold images_found.
  destruct index as [|item index']; simpl nonempty; cbv iota.
  - split; [exists []; reflexivity|].
    destruct (max_images_per_product cfg); [reflexivity|simpl; lia].
  - set (full := images_matched (item :: index') r).
    destruct (max_images_per_product cfg) as [|m]; simpl negb; cbv iota.
    + simpl. split; [exists []; now rewrite app_nil_r|reflexivity].
    + simpl andb. destruct (Nat.ltb_spec (S m) (List.length full)).
      * split; [exists (skipn (S m) full); now rewrite firstn_skipn|].
        apply firstn_le_length.
      * split; [exists []; now rewrite app_nil_r|assumption].
Qed.

(** ** The product payload *)

Lemma payload_get_other cfg r k v :
  str_eqb (u "handle") k = false ->
  dict_get
    [ (u "title", VStr (row_title r));
      (u "body_html", VStr (row_body_html r));
      (u "vendor", VStr (default_vendor cfg));
      (u "product_type", VStr (default_product_type cfg));
      (u "status", VStr (default_status cfg));
      (u "tags", tags_str (row_tags r));
      (u "variants", VList [variant cfg r]) ] k = v ->
  dict_get (product_payload cfg r) k = v.
Proof.
  intros Hk Hv. unfold product_payload.
  destruct (row_handle r) as [h|]; [|exact Hv].
  destruct (truthy h); [|exact Hv].
  now rewrite dict_get_set, Hk.
Qed.

(** The payload always has the key tags; its value is the joined tags,
    or None when there is none. *)
Lemma payload_tags cfg r :
  dict_get (product_payload cfg r) (u "tags") = Some (tags_str (row_tags r)).
Proof. now apply payload_get_other. Qed.


(** X23: for a row with a title whose handle text is empty (the column
    is absent or the cell holds only white space) and whose title
    slugifies to the empty text, the payload has no key handle, the handle
    adds no identity key, and with an empty sku no image is matched. *)
Theorem empty_slug_no_handle (cfg : config) (index : dict bytes) (r : row) :
  row_title r <> [] ->
  row_handle_url r = [] ->
  slugify (row_title r) = [] ->
  dict_get (product_payload cfg r) (u "handle") = None /\
  identity_keys (row_sku r) (row_handle r) =
    (if truthy (row_sku r) then [row_sku r] else []) /\
  (row_sku r = [] -> images_found cfg index r = []).
Proof.
  intros Ht Hh Hs.
  assert (Hr : row_handle r = Some []).
  { unfold row_handle. rewrite Hh. apply truthy_spec in Ht.
    simpl. now rewrite Ht, Hs. }
  split; [|split].
  - unfold product_payload. rewrite Hr. reflexivity.
  - unfold identity_keys. rewrite Hr. simpl. now rewrite app_nil_r.
  - intros Hsku. unfold images_found.
    assert (Hm : images_matched index r = []).
    { unfold images_matched, identity_keys. rewrite Hr, Hsku. simpl.
      unfold find_images_for_product. simpl.
      induction index as [|[f c] t IH]; simpl; [reflexivity|exact IH]. }
    rewrite Hm. simpl.
    destruct (nonempty index); [|reflexivity].
    now destruct (negb (max_images_per_product cfg =? 0) && (max_images_per_product cfg <? 0)); [rewrite firstn_nil|].
Qed.

(** ** The session *)

Lemma method_retryable m : Retry.is_method_retryable m = true.
Proof. now destruct m. Qed.

Lemma send_step left req h :
  send left req h =
  match remote h req with
  | Unreachable =>
      match left with
      | 0 => (Failure (u "ConnectionError"), h ++ [req])
      | S n => send n req (h ++ [req])
      end
  | Answered status_code retry_after text r_body =>
      if Retry.is_retry left (r_method req) status_code retry_after then
        match left with
        | 0 => (Failure (u "RetryError"), h ++ [req])
        | S n => send n req (h ++ [req])
        end
      else (Response status_code text r_body, h ++ [req])
  end.
Proof. destruct left; reflexivity. Qed.

Lemma history_shift (h : list request) req j :
  (h ++ [req]) ++ repeat req j = h ++ repeat req (S j).
Proof. now rewrite <- app_assoc. Qed.

(** A call of the session sends its request between one and six times. *)
Lemma send_trace left req : forall h,
  exists n, 1 <= n <= S left /\ snd (send left req h) = h ++ repeat req n.
Proof.
  induction left as [|left IH]; intros h; rewrite send_step.
  - exists 1. split; [lia|].
    destruct (remote h req) as [st ra txt b|]; [|reflexivity].
    now destruct (Retry.is_retry 0 (r_method req) st ra).
  - destruct (IH (h ++ [req])) as [n [Hn E]].
    assert (Hmore : exists n0, 1 <= n0 <= S (S left) /\
              snd (send left req (h ++ [req])) = h ++ repeat req n0).
    { exists (S n). split; [lia|]. now rewrite E, history_shift. }
    destruct (remote h req) as [st ra txt b|]; [|exact Hmore].
    destruct (Retry.is_retry (S left) (r_method req) st ra); [exact Hmore|].
    exists 1. split; [lia|reflexivity].
Qed.

(** The session never returns a response with a status of the force
    list. *)
Lemma send_response left req : forall h status_code text r_body,
  fst (send left req h) = Response status_code text r_body ->
  existsb (Z.eqb status_code) Retry.status_forcelist = false.
Proof.
  induction left as [|left IH]; intros h st txt b; rewrite send_step;
    destruct (remote h req) as [st' ra txt' b'|].
  - destruct (Retry.is_retry 0 (r_method req) st' ra) eqn:E; [discriminate|].
    simpl. intros H. injection H as <- _ _.
    unfold Retry.is_retry in E. rewrite method_retryable in E.
    now apply orb_false_iff in E.
  - discriminate.
  - destruct (Retry.is_retry (S left) (r_method req) st' ra) eqn:E;
      [apply IH|].
    simpl. intros H. injection H as <- _ _.
    unfold Retry.is_retry in E. rewrite method_retryable in E.
    now apply orb_false_iff in E.
  - apply IH.
Qed.

Lemma send_final left req h status_code retry_after text r_body :
  remote h req = Answered status_code retry_after text r_body ->
  Retry.is_retry left (r_method req) status_code retry_after = false ->
  send left req h = (Response status_code text r_body, h ++ [req]).
Proof. intros H1 H2. now rewrite send_step, H1, H2. Qed.

(** Answers with a status of the force list use up the retries: the call
    raises [RetryError] after its request was sent once more than the
    total. *)
Lemma send_exhaust_status left req : forall h,
  (forall n, n <= left ->
     exists status_code retry_after text r_body,
       remote (h ++ repeat req n) req =
         Answered status_code retry_after text r_body /\
       existsb (Z.eqb status_code) Retry.status_forcelist = true) ->
  send left req h = (Failure (u "RetryError"), h ++ repeat req (S left)).
Proof.
  induction left as [|left IH]; intros h H; rewrite send_step;
    destruct (H 0 ltac:(lia)) as [st [ra [txt [b [E F]]]]];
    simpl in E; rewrite app_nil_r in E; rewrite E;
    unfold Retry.is_retry; rewrite method_retryable, F; cbn [andb orb].
  - reflexivity.
  - rewrite IH; [now rewrite history_shift|].
    intros n Hn. rewrite history_shift. apply H. lia.
Qed.

(** Exchanges that fail use up the retries: the call raises
    [ConnectionError] after its request was sent once more than the
    total. *)
Lemma send_exhaust_unreachable left req : forall h,
  (forall n, n <= left -> remote (h ++ repeat req n) req = Unreachable) ->
  send left req h = (Failure (u "ConnectionError"), h ++ repeat req (S left)).
Proof.
  induction left as [|left IH]; intros h H; rewrite send_step;
    assert (E := H 0 ltac:(lia));
    simpl in E; rewrite app_nil_r in E; rewrite E.
  - reflexivity.
  - rewrite IH; [now rewrite history_shift|].
    intros n Hn. rewrite history_shift. apply H. lia.
Qed.

Lemma api_call_run m e payload h :
  api_call m e payload h =
  (response_result m e
     (fst (session_request
             {| r_method := m; r_endpoint := e; r_json := payload |} h)),
   snd (session_request
          {| r_method := m; r_endpoint := e; r_json := payload |} h)).
Proof.
  unfold api_call. now destruct (session_request _ h).
Qed.

Lemma api_call_trace m e payload h :
  exists n, 1 <= n <= 6 /\
    snd (api_call m e payload h) =
    h ++ repeat {| r_method := m; r_endpoint := e; r_json := payload |} n.
Proof.
  rewrite api_call_run. cbn [snd]. apply send_trace.
Qed.

(** ** The retry policy *)

(** Only a response with a status of 400 or more is a [ShopifyError]. *)
Lemma shopify_error_iff m e o :
  is_shopify_error (response_result m e o) = true <->
  exists status_code text r_body,
    o = Response status_code text r_body /\ (400 <= status_code)%Z.
Proof.
  destruct o as [st txt b|name]; simpl.
  - destruct (Z.leb_spec 400 st); simpl.
    + split; [intros _; now exists st, txt, b|reflexivity].
    + split.
      * destruct b; discriminate.
      * intros [st' [txt' [b' [H1 H2]]]]. injection H1 as -> _ _. lia.
  - split; [discriminate|intros [st [txt [b [H _]]]]; discriminate].
Qed.

Lemma retry_loop_step {S A} n (op : M S A) s :
  retry_loop n op s =
  match op s with
  | (Raise (ShopifyError msg), s') =>
      match n with
      | 0 => (Raise (ShopifyError msg), s')
      | S n' => retry_loop n' op s'
      end
  | other => other
  end.
Proof. destruct n; reflexivity. Qed.

Lemma call_request_eta c :
  {| r_method := POST; r_endpoint := r_endpoint (call_request c);
     r_json := r_json (call_request c) |} = call_request c.
Proof. now destruct c. Qed.

Lemma undecorated_step c h :
  undecorated c h = (attempt c h 0, history_after c h 1).
Proof.
  unfold attempt. cbn [history_after]. now destruct (undecorated c h).
Qed.

Lemma undecorated_run c h :
  undecorated c h =
  (response_result POST (r_endpoint (call_request c))
     (fst (session_request (call_request c) h)),
   snd (session_request (call_request c) h)).
Proof.
  unfold undecorated, api_post. now rewrite api_call_run, call_request_eta.
Qed.

Lemma attempt_shift c h j :
  attempt c (history_after c h 1) j = attempt c h (S j).
Proof. reflexivity. Qed.

Lemma history_after_shift c h j :
  history_after c (history_after c h 1) j = history_after c h (S j).
Proof. reflexivity. Qed.

Lemma history_after_succ c h j :
  history_after c h (S j) = snd (undecorated c (history_after c h j)).
Proof.
  revert h. induction j as [|j IH]; intros h; [reflexivity|].
  change (history_after c h (S (S j)))
    with (history_after c (history_after c h 1) (S j)).
  now rewrite IH.
Qed.

(** An attempt sends the request of the call between one and six
    times. *)
Lemma attempt_trace c h j :
  exists n, 1 <= n <= 6 /\
    history_after c h (S j) = history_after c h j ++ repeat (call_request c) n.
Proof.
  rewrite history_after_succ, undecorated_run. cbn [snd]. apply send_trace.
Qed.

Lemma history_after_trace c h j :
  exists n, j <= n <= 6 * j /\
    history_after c h j = h ++ repeat (call_request c) n.
Proof.
  induction j as [|j [n [Hn E]]].
  - exists 0. split; [lia|]. simpl. now rewrite app_nil_r.
  - destruct (attempt_trace c h j) as [n' [Hn' E']].
    exists (n + n'). split; [lia|].
    now rewrite E', E, <- app_assoc, repeat_app.
Qed.

(** The loop ends at the first attempt that does not raise
    [ShopifyError]. *)
Lemma retry_loop_ends c k : forall n h,
  k <= n ->
  (forall j, j < k -> is_shopify_error (attempt c h j) = true) ->
  is_shopify_error (attempt c h k) = false ->
  retry_loop n (undecorated c) h = (attempt c h k, history_after c h (S k)).
Proof.
  induction k as [|k IH]; intros n h Hk Hfail Hend.
  - rewrite retry_loop_step, undecorated_step.
    destruct (attempt c h 0) as [a|[msg|name]]; try reflexivity; discriminate.
  - destruct n as [|n]; [lia|].
    assert (H0 := Hfail 0 ltac:(lia)).
    rewrite retry_loop_step, undecorated_step.
    destruct (attempt c h 0) as [a|[msg|name]]; try discriminate.
    rewrite (IH n (history_after c h 1)).
    + now rewrite attempt_shift, history_after_shift.
    + lia.
    + intros j Hj. rewrite attempt_shift. apply Hfail. lia.
    + now rewrite attempt_shift.
Qed.

(** When every attempt raises [ShopifyError], the last one is raised. *)
Lemma retry_loop_exhausted c n : forall h,
  (forall j, j <= n -> is_shopify_error (attempt c h j) = true) ->
  retry_loop n (undecorated c) h = (attempt c h n, history_after c h (S n)).
Proof.
  induction n as [|n IH]; intros h Hfail.
  - rewrite retry_loop_step, undecorated_step.
    now destruct (attempt c h 0) as [a|[msg|name]].
  - assert (H0 := Hfail 0 ltac:(lia)).
    rewrite retry_loop_step, undecorated_step.
    destruct (attempt c h 0) as [a|[msg|name]]; try discriminate.
    rewrite (IH (history_after c h 1)).
    + now rewrite attempt_shift, history_after_shift.
    + intros j Hj. rewrite attempt_shift. apply Hfail. lia.
Qed.

(** The attempts of a call, whatever the remote API answers. *)
Lemma retry_loop_trace c n : forall h,
  exists k, k <= n /\
    retry_loop n (undecorated c) h = (attempt c h k, history_after c h (S k)) /\
    (forall j, j < k -> is_shopify_error (attempt c h j) = true) /\
    (k < n -> is_shopify_error (attempt c h k) = false).
Proof.
  induction n as [|n IH]; intros h.
  - exists 0. split; [lia|]. split; [|split; intros; lia].
    rewrite retry_loop_step, undecorated_step.
    now destruct (attempt c h 0) as [a|[msg|name]].
  - destruct (is_shopify_error (attempt c h 0)) eqn:E.
    + destruct (IH (history_after c h 1)) as [k [Hk [Hr [Hf Hl]]]].
      exists (S k). split; [lia|]. split; [|split].
      * rewrite retry_loop_step, undecorated_step.
        destruct (attempt c h 0) as [a|[msg|name]]; try discriminate.
        rewrite Hr. now rewrite attempt_shift, history_after_shift.
      * intros j Hj. destruct j as [|j]; [exact E|].
        rewrite <- attempt_shift. apply Hf. lia.
      * intros Hlt. rewrite <- attempt_shift. apply Hl. lia.
    + exists 0. split; [lia|]. split; [|split].
      * rewrite retry_loop_step, undecorated_step.
        destruct (attempt c h 0) as [a|[msg|name]]; try reflexivity.
        discriminate.
      * intros j Hj. lia.
      * intros _. exact E.
Qed.

Lemma perform_retry c : perform c = retry_loop 3 (undecorated c).
Proof. destruct c; reflexivity. Qed.

Lemma forcelist_spec status_code :
  existsb (Z.eqb status_code) Retry.status_forcelist = false <->
  ~ In status_code [429; 500; 502; 503; 504]%Z.
Proof.
  unfold Retry.status_forcelist. cbn [existsb In].
  split.
  - intros H Hin. rewrite !orb_false_iff, !Z.eqb_neq in H.
    destruct H as [H1 [H2 [H3 [H4 [H5 _]]]]].
    destruct Hin as [E|[E|[E|[E|[E|[]]]]]]; congruence.
  - intros H. rewrite !orb_false_iff, !Z.eqb_neq.
    repeat split; try (intros E; apply H; rewrite E; cbn; auto 6).
Qed.


(** ** Calls are only added *)

Lemma grows_ret {S A} proj (a : A) : grows proj (@ret S A a).
Proof. intros s. exists []. simpl. now rewrite app_nil_r. Qed.

Lemma grows_raise {S A} proj e : grows proj (@raise S A e).
Proof. intros s. exists []. simpl. now rewrite app_nil_r. Qed.

Lemma grows_bind {S A B} proj (m : M S A) (k : A -> M S B) :
  grows proj m -> (forall a, grows proj (k a)) -> grows proj (bind m k).
Proof.
  intros Hm Hk s. unfold bind. destruct (Hm s) as [more1 H1].
  destruct (m s) as [[a|e] s1]; simpl in *.
  - destruct (Hk a s1) as [more2 H2]. exists (more1 ++ more2).
    now rewrite H2, H1, app_assoc.
  - now exists more1.
Qed.

Lemma grows_try_except {S A} proj (body : M S A) handler :
  grows proj body -> (forall e, grows proj (handler e)) ->
  grows proj (try_except body handler).
Proof.
  intros Hb Hh s. unfold try_except. destruct (Hb s) as [more1 H1].
  destruct (body s) as [[a|[msg|name]] s1]; simpl in *;
    try (now exists more1).
  destruct (Hh msg s1) as [more2 H2]. exists (more1 ++ more2).
  now rewrite H2, H1, app_assoc.
Qed.

Lemma grows_retry_loop {S A} proj n (op : M S A) :
  grows proj op -> grows proj (retry_loop n op).
Proof.
  intros Hop. induction n as [|n IH]; intros s; rewrite retry_loop_step;
    destruct (Hop s) as [more1 H1];
    destruct (op s) as [[a|[msg|name]] s1]; simpl in *;
    try (now exists more1).
  destruct (IH s1) as [more2 H2]. exists (more1 ++ more2).
  now rewrite H2, H1, app_assoc.
Qed.

Lemma grows_api_call m e payload :
  grows (fun h => h) (api_call m e payload).
Proof.
  intros h. destruct (api_call_trace m e payload h) as [n [_ E]].
  eexists. exact E.
Qed.

Lemma grows_lift {A} (op : M (list request) A) :
  grows (fun h => h) op -> grows calls (lift op).
Proof.
  intros Hop w. unfold lift. destruct (Hop (calls w)) as [more H].
  destruct (op (calls w)) as [r h]. simpl in *. now exists more.
Qed.

Lemma grows_log_append l : grows calls (log_append l).
Proof. intros w. exists []. simpl. now rewrite app_nil_r. Qed.

Lemma grows_info title e : grows calls (info title e).
Proof. intros w. exists []. simpl. now rewrite app_nil_r. Qed.

Lemma grows_update product_id seo_title seo_desc :
  grows (fun h => h) (update_product_metafields product_id seo_title seo_desc).
Proof.
  unfold update_product_metafields.
  destruct (nonempty _); [|apply grows_ret].
  apply grows_bind; [apply grows_api_call|intros; apply grows_ret].
Qed.

Lemma grows_attach_image product_id img :
  grows (fun h => h) (attach_image product_id img).
Proof. apply grows_retry_loop, grows_api_call. Qed.

Lemma grows_attach_images i title sku product_id imgs :
  forall attached,
    grows calls (attach_images i title sku product_id imgs attached).
Proof.
  induction imgs as [|img rest IH]; intros attached; simpl.
  - apply grows_ret.
  - apply grows_bind; [|intros; apply IH].
    apply grows_try_except.
    + apply grows_bind; [|intros; apply grows_ret].
      apply grows_lift, grows_attach_image.
    + intros e. apply grows_bind; [apply grows_log_append|intros; apply grows_ret].
Qed.

Lemma lift_run {A} (op : M (list request) A) w r h :
  op (calls w) = (r, h) ->
  lift op w = (r, {| calls := h; logs := logs w; infos := infos w |}).
Proof. intros H. unfold lift. now rewrite H. Qed.

Lemma grows_with_product i r imgs prod :
  grows calls (with_product i r imgs prod).
Proof.
  unfold with_product. apply grows_bind.
  - apply grows_try_except; [apply grows_lift, grows_update|].
    intros; apply grows_info.
  - intros _. apply grows_bind; [apply grows_attach_images|].
    intros; apply grows_log_append.
Qed.

Lemma grows_after_creation i r imgs res :
  grows calls (after_creation i r imgs res).
Proof.
  unfold after_creation.
  destruct (product_of res); [apply grows_with_product|apply grows_raise].
Qed.

Lemma try_bind_run {S A B} (m : M S A) (k : A -> M S B) handler s r s1 :
  m s = (r, s1) ->
  try_except (bind m k) handler s =
  match r with
  | Return a => try_except (k a) handler s1
  | Raise (ShopifyError msg) => handler msg s1
  | Raise e => (Raise e, s1)
  end.
Proof.
  intros H. unfold try_except, bind. rewrite H.
  now destruct r as [a|[msg|name]].
Qed.

Lemma bind_run {S A B} (m : M S A) (k : A -> M S B) s r s1 :
  m s = (r, s1) ->
  bind m k s =
  match r with
  | Return a => k a s1
  | Raise e => (Raise e, s1)
  end.
Proof. intros H. unfold bind. now rewrite H. Qed.

(** ** Rows *)

Lemma process_row_titled cfg index i r w :
  row_title r <> [] ->
  process_row cfg index i r w =
  try_except
    (bind (lift (create_product (product_payload cfg r)))
          (after_creation i r (images_found cfg index r)))
    (fun e => log_append (LogError i (row_title r) (row_sku r) (firstn 500 e)))
    w.
Proof.
  intros Ht. apply truthy_spec in Ht. unfold process_row. now rewrite Ht.
Qed.

(** A row with a title sends the creation request first. *)
Lemma process_row_sends_creation cfg index i r w :
  row_title r <> [] ->
  exists more,
    calls (snd (process_row cfg index i r w)) =
    calls w ++ call_request (CreateProduct (product_payload cfg r)) :: more.
Proof.
  intros Ht. rewrite process_row_titled by exact Ht.
  set (c := CreateProduct (product_payload cfg r)).
  destruct (retry_loop_trace c 3 (calls w)) as [k [Hk [Hr _]]].
  rewrite <- perform_retry in Hr. simpl perform in Hr.
  rewrite (try_bind_run _ _ _ _ _ _ (lift_run _ w _ _ Hr)).
  destruct (history_after_trace c (calls w) (S k)) as [n [Hn E]].
  assert (En : exists more0,
            history_after c (calls w) (S k) =
            calls w ++ call_request c :: more0).
  { destruct n as [|n]; [lia|]. exists (repeat (call_request c) n).
    now rewrite E. }
  destruct En as [more0 En]. rewrite En.
  destruct (attempt c (calls w) k) as [res|[msg|name]];
    [|simpl; now eexists|simpl; now eexists].
  assert (G : grows calls
                (try_except
                   (after_creation i r (images_found cfg index r) res)
                   (fun e => log_append
                      (LogError i (row_title r) (row_sku r) (firstn 500 e))))).
  { apply grows_try_except; [apply grows_after_creation|].
    intros; apply grows_log_append. }
  destruct (G {| calls := calls w ++ call_request c :: more0;
                 logs := logs w; infos := infos w |}) as [more Hm].
  rewrite Hm. simpl. rewrite <- app_assoc. simpl. now eexists.
Qed.

(** ** Attaching the images *)

(** The loop of a row, when no call meets an exception other than
    [ShopifyError]. *)
Lemma attach_images_run i title sku product_id imgs :
  forall attached w outs h,
    attach_outcomes product_id imgs (calls w) = (outs, h) ->
    existsb is_other_exception outs = false ->
    attach_images i title sku product_id imgs attached w =
      (Return (attached + count_attached outs),
       {| calls := h;
          logs := logs w ++ image_error_logs i title sku product_id imgs outs;
          infos := infos w |}).
Proof.
  induction imgs as [|img rest IH]; intros attached w outs h Ho Hx.
  - simpl in Ho. injection Ho as <- <-. simpl.
    unfold ret, count_attached, image_error_logs. simpl.
    rewrite app_nil_r, Nat.add_0_r. now destruct w.
  - simpl in Ho.
    destruct (attach_image product_id img (calls w)) as [r1 h1] eqn:E1.
    destruct (attach_outcomes product_id rest h1) as [rs h2] eqn:E2.
    injection Ho as <- <-. simpl in Hx. apply orb_false_iff in Hx.
    destruct Hx as [Hx1 Hx2].
    cbn [attach_images]. unfold bind at 1.
    rewrite (try_bind_run _ _ _ _ _ _ (lift_run _ w _ _ E1)).
    destruct r1 as [b|[msg|name]]; [| |discriminate].
    + unfold try_except, ret.
      rewrite (IH _ _ rs h2); [|exact E2|exact Hx2].
      unfold count_attached, image_error_logs. simpl.
      do 2 f_equal. lia.
    + unfold bind, log_append, ret.
      rewrite (IH _ _ rs h2); [|exact E2|exact Hx2].
      unfold count_attached, image_error_logs. simpl.
      now rewrite <- app_assoc.
Qed.

Lemma with_product_run i r imgs prod w seo h2 outs h3 :
  update_product_metafields (p_id prod) (row_seo_title r)
    (row_seo_desc r) (calls w) = (seo, h2) ->
  is_other_exception seo = false ->
  attach_outcomes (p_id prod) imgs h2 = (outs, h3) ->
  existsb is_other_exception outs = false ->
  with_product i r imgs prod w =
    (Return tt,
     {| calls := h3;
        logs :=
          logs w ++
          image_error_logs i (row_title r) (row_sku r) (p_id prod)
            imgs outs ++
          [LogCreated i (row_title r) (row_sku r) (p_id prod)
             (p_handle prod) (count_attached outs)];
        infos := infos w ++ seo_infos (row_title r) seo |}).
Proof.
  intros Hs Hseo Ho Hx.
  unfold with_product, bind at 1, try_except.
  rewrite (lift_run _ w _ _ Hs).
  destruct seo as [[]|[msg|name]]; [| |discriminate].
  - unfold bind.
    rewrite (attach_images_run _ _ _ _ _ 0 _ outs h3); [|exact Ho|exact Hx].
    simpl. unfold log_append. simpl.
    now rewrite <- app_assoc, app_nil_r.
  - unfold info, bind.
    rewrite (attach_images_run _ _ _ _ _ 0 _ outs h3); [|exact Ho|exact Hx].
    simpl. unfold log_append. simpl.
    now rewrite <- app_assoc.
Qed.

(** * Further properties *)

(** ** The store host *)

(** X1: a host is accepted exactly when it contains a dot; the tests for
    the empty text and for the ending myshopify.com add nothing. *)
Theorem valid_host_is_dot (h : str) :
  valid_host h = contains (u ".") h.
Proof.
  unfold valid_host.
  destruct (contains (u ".") h) eqn:Ec.
  - destruct h; [discriminate|reflexivity].
  - destruct (endswith (u "myshopify.com") h) eqn:Ee;
      [|now rewrite andb_false_r].
    apply endswith_spec in Ee. destruct Ee as [a ->].
    assert (Hc : contains (u ".") (a ++ u "myshopify.com") = true).
    { apply contains_spec. exists (a ++ u "myshopify"), (u "com").
      now rewrite <- app_assoc. }
    congruence.
Qed.

(** ** The form of a slug *)

Lemma sub_runs_no_double s :
  contains [hyphen; hyphen] (sub_runs is_hyphen false s) = false /\
  contains [hyphen; hyphen] (sub_runs is_hyphen true s) = false /\
  starts_clean is_hyphen (sub_runs is_hyphen true s) = true.
Proof.
  induction s as [|c t [IH1 [IH2 IH3]]]; [now repeat split|].
  cbn [sub_runs]. destruct (is_hyphen c) eqn:E.
  - split; [|now split].
    cbn [contains startswith]. rewrite IH2, orb_false_r.
    destruct (sub_runs is_hyphen true t) as [|x r];
      [now rewrite andb_false_r|].
    cbn [starts_clean] in IH3. apply negb_true_iff in IH3.
    unfold is_hyphen in IH3. rewrite N.eqb_sym in IH3.
    now rewrite IH3, andb_false_r.
  - assert (Hc : (hyphen =? c)%N = false).
    { unfold is_hyphen in E. rewrite N.eqb_sym. exact E. }
    split; [|split].
    + cbn [contains startswith]. now rewrite Hc, IH1.
    + cbn [contains startswith]. now rewrite Hc, IH1.
    + simpl. now rewrite E.
Qed.

(** X2: a slug is made of the characters a-z, 0-9 and the hyphen; it
    neither begins nor ends with a hyphen and has no two hyphens in a
    row. *)
Theorem slugify_form (x : str) :
  Forall (fun c => is_slug_char c = true) (slugify x) /\
  starts_clean is_hyphen (slugify x) = true /\
  starts_clean is_hyphen (rev (slugify x)) = true /\
  contains [hyphen; hyphen] (slugify x) = false.
Proof.
  split; [apply slugify_chars|].
  destruct (slugify_clean x) as [H1 H2].
  split; [exact H1|]. split; [exact H2|].
  unfold slugify, re_sub_runs. apply sub_runs_no_double.
Qed.

(** ** Tags *)

Lemma strip_idempotent s : strip (strip s) = strip s.
Proof.
  unfold strip. destruct (strip_by_clean is_space s) as [H1 H2].
  now apply strip_by_fixed.
Qed.

Lemma split_on_app sep a y :
  ~ In sep a -> split_on sep (a ++ sep :: y) = a :: split_on sep y.
Proof.
  induction a as [|c a IH]; intros Ha; simpl.
  - now rewrite N.eqb_refl.
  - destruct (N.eqb_spec c sep) as [->|Hc]; [exfalso; apply Ha; now left|].
    rewrite IH; [reflexivity|]. intros H. apply Ha. now right.
Qed.

Lemma split_on_whole sep a : ~ In sep a -> split_on sep a = [a].
Proof.
  induction a as [|c a IH]; intros Ha; simpl; [reflexivity|].
  destruct (N.eqb_spec c sep) as [->|Hc]; [exfalso; apply Ha; now left|].
  rewrite IH; [reflexivity|]. intros H. apply Ha. now right.
Qed.

(** White space before a text does not change its tags. *)
Lemma tag_list_space c s :
  is_space c = true -> tag_list (c :: s) = tag_list s.
Proof.
  intros Hc. unfold tag_list. simpl.
  assert (Hn : (c =? comma)%N = false).
  { destruct (N.eqb_spec c comma) as [->|]; [discriminate|reflexivity]. }
  rewrite Hn. destruct (split_on_cons comma s) as [p [ps E]]. rewrite E.
  assert (Hs : strip (c :: p) = strip p).
  { unfold strip, strip_by. simpl. now rewrite Hc. }
  simpl. now rewrite Hs.
Qed.

Lemma tag_list_cons a y :
  is_tag a -> tag_list (a ++ comma :: y) = a :: tag_list y.
Proof.
  intros [Ha [Hs Hc]]. unfold tag_list.
  rewrite split_on_app by exact Hc. simpl. rewrite Hs.
  apply truthy_spec in Ha. now rewrite Ha.
Qed.

Lemma tag_list_join l :
  Forall is_tag l -> tag_list (join (u ", ") l) = l.
Proof.
  induction 1 as [|a l Ha Hl IH]; [reflexivity|].
  destruct l as [|b l'].
  - destruct Ha as [Ha [Hs Hc]]. simpl. unfold tag_list.
    rewrite split_on_whole by exact Hc. simpl. rewrite Hs.
    apply truthy_spec in Ha. now rewrite Ha.
  - change (join (u ", ") (a :: b :: l'))
      with (a ++ comma :: 32%N :: join (u ", ") (b :: l')).
    rewrite tag_list_cons by exact Ha.
    rewrite tag_list_space by reflexivity. now rewrite IH.
Qed.

(** X3: every tag of the normalized list is not empty, has no white
    space at its ends and has no comma. *)
Theorem tag_list_entries (tags : str) : Forall is_tag (tag_list tags).
Proof.
  apply Forall_forall. intros t Ht. unfold tag_list in Ht.
  apply filter_In in Ht. destruct Ht as [Ht Hn].
  apply in_map_iff in Ht. destruct Ht as [p [<- Hp]].
  split; [now apply truthy_spec|]. split; [apply strip_idempotent|].
  assert (H := split_on_no_sep comma tags).
  assert (Hc : Forall (fun c => c <> comma) p).
  { apply Forall_forall. intros c Hin ->.
    now apply (proj1 (Forall_forall _ _) H p Hp). }
  intros Hin. unfold strip in Hin.
  now apply (proj1 (Forall_forall _ _) (strip_by_Forall _ is_space p Hc) comma).
Qed.

(** X4: the tags sent for a row are read back as the same list: splitting
    the joined text on commas, trimming and dropping empties gives the
    normalized list again. *)
Theorem tag_list_round_trip (tags : str) :
  tag_list (join (u ", ") (tag_list tags)) = tag_list tags.
Proof. apply tag_list_join, tag_list_entries. Qed.


(** ** Normalizing the store host *)

Lemma remove_none old s :
  contains old s = false -> remove_all old s = s.
Proof.
  unfold remove_all. induction s as [|c t IH]; [reflexivity|].
  cbn [contains]. intros H. apply orb_false_iff in H. destruct H as [H1 H2].
  cbn [remove_from]. rewrite H1. now rewrite IH.
Qed.

(** An occurrence of /admin cannot begin in [t] and end in a following
    /admin. *)
Lemma admin_border c t :
  startswith (u "/admin") (c :: t) = false ->
  startswith (u "/admin") ((c :: t) ++ u "/admin") = false.
Proof.
  change (u "/admin") with [47; 97; 100; 109; 105; 110]%N.
  destruct t as [|c1 [|c2 [|c3 [|c4 [|c5 t]]]]]; cbn [startswith app];
    intros H; try exact H;
    repeat match goal with
      | |- context [(?a =? ?b)%N] => is_var b; destruct (a =? b)%N
      end; reflexivity.
Qed.

Lemma remove_trailing_admin h :
  contains (u "/admin") h = false ->
  remove_all (u "/admin") (h ++ u "/admin") = h.
Proof.
  unfold remove_all. induction h as [|c t IH]; [reflexivity|].
  cbn [contains]. intros H. apply orb_false_iff in H. destruct H as [H1 H2].
  change ((c :: t) ++ u "/admin") with (c :: (t ++ u "/admin")).
  cbn [remove_from].
  change (c :: (t ++ u "/admin")) with ((c :: t) ++ u "/admin").
  rewrite (admin_border c t H1). now rewrite IH.
Qed.

Lemma lowered_letter c small :
  ascii_lower c = small -> (97 <= small <= 122)%N ->
  letter small (small - 32)%N c = true.
Proof.
  unfold ascii_lower, is_upper, letter. intros <- H.
  destruct (N.leb_spec 65 c), (N.leb_spec c 90); simpl in *;
    try (rewrite N.eqb_refl; reflexivity).
  replace (c + 32 - 32)%N with c by lia.
  rewrite N.eqb_refl. apply orb_true_r.
Qed.

Lemma lowered_other c x :
  ascii_lower c = x -> (x < 97)%N -> c = x.
Proof.
  unfold ascii_lower, is_upper. intros <- H.
  destruct (N.leb_spec 65 c), (N.leb_spec c 90); simpl in *; lia.
Qed.

Lemma strip_scheme_drop sch rest :
  List.map ascii_lower sch = u "https://" \/
  List.map ascii_lower sch = u "http://" ->
  strip_scheme (sch ++ rest) = rest /\
  starts_clean is_space (sch ++ rest) = true.
Proof.
  intros [H|H].
  - destruct sch as [|c0 [|c1 [|c2 [|c3 [|c4 [|c5 [|c6 [|c7 [|c8 t]]]]]]]]];
      try discriminate.
    change (u "https://") with [104; 116; 116; 112; 115; 58; 47; 47]%N in H.
    injection H as H0 H1 H2 H3 H4 H5 H6 H7.
    apply lowered_other in H5, H6, H7; try lia. subst c5 c6 c7.
    apply lowered_letter in H0, H1, H2, H3, H4; try lia.
    assert (Hs : letter_s c4 = true).
    { unfold letter in H4. unfold letter_s.
      change (115 - 32)%N with 83%N in H4. now rewrite H4. }
    split.
    + unfold strip_scheme. cbn [http colon_slash_slash app drop_prefix_by].
      change (104 - 32)%N with 72%N in H0. change (116 - 32)%N with 84%N in H1, H2.
      change (112 - 32)%N with 80%N in H3.
      now rewrite H0, H1, H2, H3, Hs.
    + cbn [app starts_clean]. unfold letter in H0.
      apply orb_true_iff in H0. rewrite !N.eqb_eq in H0.
      destruct H0 as [->| ->]; reflexivity.
  - destruct sch as [|c0 [|c1 [|c2 [|c3 [|c4 [|c5 [|c6 [|c7 t]]]]]]]];
      try discriminate.
    change (u "http://") with [104; 116; 116; 112; 58; 47; 47]%N in H.
    injection H as H0 H1 H2 H3 H4 H5 H6.
    apply lowered_other in H4, H5, H6; try lia. subst c4 c5 c6.
    apply lowered_letter in H0, H1, H2, H3; try lia.
    split.
    + unfold strip_scheme. cbn [http colon_slash_slash app drop_prefix_by].
      change (104 - 32)%N with 72%N in H0. change (116 - 32)%N with 84%N in H1, H2.
      change (112 - 32)%N with 80%N in H3.
      now rewrite H0, H1, H2, H3.
    + cbn [app starts_clean]. unfold letter in H0.
      apply orb_true_iff in H0. rewrite !N.eqb_eq in H0.
      destruct H0 as [->| ->]; reflexivity.
Qed.

(** X5: the address of the admin page, https://host/admin or
    http://host/admin with the scheme in any letter case, is normalized to
    the host, for a host that does not contain /admin and neither begins
    nor ends with a slash. *)
Theorem normalize_store_host_url (sch h : str) :
  List.map ascii_lower sch = u "https://" \/
  List.map ascii_lower sch = u "http://" ->
  contains (u "/admin") h = false ->
  starts_clean is_slash h = true ->
  starts_clean is_slash (rev h) = true ->
  normalize_store_host (sch ++ h ++ u "/admin") = h.
Proof.
  intros Hsch Hadm Hl Hr. unfold normalize_store_host.
  destruct (strip_scheme_drop sch (h ++ u "/admin") Hsch) as [Hdrop Hclean].
  assert (Hs : strip (sch ++ h ++ u "/admin") = sch ++ h ++ u "/admin").
  { apply strip_by_fixed; [exact Hclean|].
    now rewrite !rev_app_distr. }
  rewrite Hs, Hdrop, (remove_trailing_admin h Hadm).
  now apply strip_by_fixed.
Qed.

(** X6: a host without white space or a slash at its ends, without a
    scheme at its start and without /admin is left as it is. *)
Theorem normalize_store_host_fixed (h : str) :
  strip h = h ->
  strip_scheme h = h ->
  contains (u "/admin") h = false ->
  starts_clean is_slash h = true ->
  starts_clean is_slash (rev h) = true ->
  normalize_store_host h = h.
Proof.
  intros Hs Hsch Hadm Hl Hr. unfold normalize_store_host.
  rewrite Hs, Hsch, (remove_none _ h Hadm). now apply strip_by_fixed.
Qed.


(** ** The payload of a row *)

(** X7: the handle of the payload is the explicit handle, trimmed and not
    slugified, when the column has one; otherwise the slug of the title
    when that is not empty; otherwise the payload has no handle.  The
    other seven fields are always present, in this order, with the handle
    last. *)
Theorem payload_handle_rule (cfg : config) (r : row) :
  row_title r <> [] ->
  dict_get (product_payload cfg r) (u "handle") =
    (if truthy (row_handle_url r) then Some (VStr (row_handle_url r))
     else if truthy (slugify (row_title r))
          then Some (VStr (slugify (row_title r)))
          else None) /\
  keys (product_payload cfg r) =
    [u "title"; u "body_html"; u "vendor"; u "product_type"; u "status";
     u "tags"; u "variants"] ++
    (if truthy (row_handle_url r) || truthy (slugify (row_title r))
     then [u "handle"] else []).
Proof.
  intros Ht. apply truthy_spec in Ht.
  unfold product_payload, row_handle. rewrite Ht.
  destruct (truthy (row_handle_url r)) eqn:E1.
  - rewrite E1. now rewrite dict_get_set.
  - destruct (truthy (slugify (row_title r))) eqn:E2.
    + now rewrite dict_get_set.
    + now split.
Qed.

(** X8: a cell that pandas read as missing (NaN) becomes the text nan: a
    row whose title cell is missing is not skipped but created with the
    title nan, missing tags are sent as the tag nan, and a missing handle
    cell gives the handle nan, not the slug of the title. *)
Theorem missing_cells_read_as_nan (cfg : config) (index : dict bytes)
  (i : nat) (r : row) (w : world) :
  (col_titolo_prodotto r = Some NaN ->
   dict_get (product_payload cfg r) (u "title") = Some (VStr (u "nan")) /\
   exists more,
     calls (snd (process_row cfg index i r w)) =
     calls w ++ call_request (CreateProduct (product_payload cfg r)) :: more) /\
  (col_tag r = Some NaN ->
   dict_get (product_payload cfg r) (u "tags") = Some (VStr (u "nan"))) /\
  (col_handle_url r = Some NaN ->
   dict_get (product_payload cfg r) (u "handle") = Some (VStr (u "nan"))).
Proof.
  split; [|split].
  - intros H.
    assert (Ht : row_title r = u "nan").
    { unfold row_title. now rewrite H. }
    split.
    + apply payload_get_other; [reflexivity|]. now rewrite Ht.
    + apply process_row_sends_creation. now rewrite Ht.
  - intros H. rewrite payload_tags. unfold row_tags. now rewrite H.
  - intros H.
    assert (Hh : row_handle r = Some (u "nan")).
    { unfold row_handle, row_handle_url. now rewrite H. }
    unfold product_payload. rewrite Hh.
    change (truthy (u "nan")) with true. cbv iota.
    now rewrite dict_get_set.
Qed.

(** ** More on matching *)

Lemma matched_filenames index r :
  List.map filename (images_matched index r) =
  filter (key_matches (row_sku r) (row_handle r)) (keys index).
Proof.
  rewrite images_matched_filter. unfold keys.
  induction index as [|[f c] t IH]; simpl; [reflexivity|].
  destruct (key_matches (row_sku r) (row_handle r) f); simpl; now rewrite IH.
Qed.

(** X9: the missing SKU of a row (NaN) is the identity key nan: every
    image of the index whose filename contains nan is matched to the
    row. *)
Theorem missing_sku_matches_nan (index : dict bytes) (r : row)
  (fname : str) (content : bytes) :
  col_sku r = Some NaN ->
  In (fname, content) index ->
  contains (u "nan") fname = true ->
  In {| attachment := b64encode content; filename := fname |}
    (images_matched index r).
Proof.
  intros Hs Hin Hc. rewrite images_matched_filter.
  apply in_map_iff. exists (fname, content). split; [reflexivity|].
  apply filter_In. split; [exact Hin|]. simpl.
  assert (Hk : row_sku r = u "nan").
  { unfold row_sku. now rewrite Hs. }
  apply key_matches_spec. exists (u "nan"). rewrite Hk.
  split; [now left|]. split; [discriminate|].
  now apply contains_spec.
Qed.

(** X10: with a positive maximum the images kept for a row are exactly
    the first so many of the matched images. *)
Theorem images_found_firstn (cfg : config) (index : dict bytes) (r : row) :
  max_images_per_product cfg <> 0 ->
  images_found cfg index r =
    firstn (max_images_per_product cfg) (images_matched index r) /\
  List.length (images_found cfg index r) =
    Nat.min (max_images_per_product cfg) (List.length (images_matched index r)).
Proof.
  intros Hm.
  assert (H : images_found cfg index r =
              firstn (max_images_per_product cfg) (images_matched index r)).
  { unfold images_found. destruct index as [|item index'].
    - simpl. now rewrite firstn_nil.
    - cbn [nonempty].
      set (full := images_matched (item :: index') r).
      destruct (Nat.eqb_spec (max_images_per_product cfg) 0); [contradiction|].
      cbn [negb andb].
      destruct (Nat.ltb_spec (max_images_per_product cfg) (List.length full));
        [reflexivity|].
      now rewrite firstn_all2. }
  split; [exact H|]. rewrite H. apply length_firstn.
Qed.

(** X11: no file is found twice for a row: over an index with distinct
    keys, and so over every index built from an archive, the filenames of
    the images kept for a row are distinct. *)
Theorem images_found_distinct (cfg : config) (r : row) :
  (forall index,
     NoDup (keys index) ->
     NoDup (List.map filename (images_found cfg index r))) /\
  (forall zf,
     NoDup (List.map filename
              (images_found cfg (build_image_index_from_zip zf) r))).
Proof.
  assert (H : forall index, NoDup (keys index) ->
                NoDup (List.map filename (images_found cfg index r))).
  { intros index Hk.
    assert (Hm : NoDup (List.map filename (images_matched index r))).
    { rewrite matched_filenames. now apply NoDup_filter. }
    unfold images_found. destruct (nonempty index); [|constructor].
    destruct (negb _ && _); [|exact Hm].
    rewrite <- (firstn_skipn (max_images_per_product cfg)
                  (images_matched index r)), map_app in Hm.
    now apply NoDup_app_remove_r in Hm. }
  split; [exact H|].
  intros zf. apply H. apply index_fold_NoDup. constructor.
Qed.

Lemma index_keys_spec zf k :
  In k (keys (build_image_index_from_zip zf)) <->
  exists e, In e zf /\ is_image_name (e_name e) = true /\
    index_key (e_name e) = k.
Proof.
  rewrite dict_get_keys. unfold build_image_index_from_zip, namelist.
  rewrite index_fold. split.
  - destruct (find (indexed_as k) (rev zf)) as [e|] eqn:E;
      [intros _|now intros []].
    apply find_some in E. destruct E as [Hin He].
    apply in_rev in Hin. unfold indexed_as in He.
    apply andb_true_iff in He. destruct He as [He Hk].
    apply str_eqb_eq in Hk. now exists e.
  - intros [e [Hin [H1 H2]]].
    destruct (find (indexed_as k) (rev zf)) as [e'|] eqn:E; [discriminate|].
    assert (Hf := find_none _ _ E e (proj1 (in_rev zf e) Hin)).
    unfold indexed_as in Hf.
    rewrite H1, H2, str_eqb_refl in Hf. discriminate.
Qed.

(** X12: from the archive to the row: a file is matched to a row exactly
    when it is the lowercased basename of an image entry of the archive and
    a non-empty identity key of the row, lowercased, occurs in it. *)
Theorem archive_images_matched (zf : ZipFile) (r : row) (f : str) :
  In f (List.map filename
          (images_matched (build_image_index_from_zip zf) r)) <->
  (exists e, In e zf /\ is_image_name (e_name e) = true /\
     index_key (e_name e) = f) /\
  exists k, In (Some k) [Some (row_sku r); row_handle r] /\ k <> [] /\
    exists a b, f = a ++ lower k ++ b.
Proof.
  rewrite matched_filenames, filter_In, index_keys_spec, key_matches_spec.
  reflexivity.
Qed.


(** ** Attempts, whatever the remote API answers *)


(** ** Exceptions that are not caught *)

(** X14: an exception of a creation attempt that is not ShopifyError (a
    failure of the connection, a body that is not JSON) ends the run: the
    loop raises it, the row and the rows after it get no record, and no
    further call is made. *)
Theorem foreign_exception_aborts (cfg : config) (index : dict bytes)
  (i : nat) (r : row) (rest : list row) (w : world) (k : nat) (name : str) :
  row_title r <> [] ->
  k < 4 ->
  (forall j, j < k ->
     is_shopify_error
       (attempt (CreateProduct (product_payload cfg r)) (calls w) j) = true) ->
  attempt (CreateProduct (product_payload cfg r)) (calls w) k =
    Raise (OtherException name) ->
  process_rows cfg index i (r :: rest) w =
    (Raise (OtherException name),
     {| calls :=
          history_after (CreateProduct (product_payload cfg r)) (calls w) (S k);
        logs := logs w;
        infos := infos w |}).
Proof.
  intros Ht Hk Hfail Hex.
  set (c := CreateProduct (product_payload cfg r)) in *.
  assert (Hr : create_product (product_payload cfg r) (calls w) =
               (attempt c (calls w) k, history_after c (calls w) (S k))).
  { change (create_product (product_payload cfg r)) with (perform c).
    rewrite perform_retry. apply retry_loop_ends; [lia|exact Hfail|].
    now rewrite Hex. }
  cbn [process_rows]. unfold bind at 1.
  rewrite process_row_titled by exact Ht.
  rewrite (try_bind_run _ _ _ _ _ _ (lift_run _ w _ _ Hr)).
  now rewrite Hex.
Qed.

(** ** The SEO update *)

Lemma seo_update_nonempty seo_title seo_desc :
  nonempty (seo_update seo_title seo_desc) = truthy seo_title || truthy seo_desc.
Proof.
  unfold seo_update. now destruct (truthy seo_title), (truthy seo_desc).
Qed.


(** ** The records of a run *)

Lemma attach_images_logs i title sku product_id imgs :
  forall attached w,
    is_shopify_error
      (fst (attach_images i title sku product_id imgs attached w)) = false /\
    exists errs,
      logs (snd (attach_images i title sku product_id imgs attached w)) =
        logs w ++ errs /\
      Forall (fun l => is_primary l = false /\ row_record i l = true) errs.
Proof.
  induction imgs as [|img rest IH]; intros attached w.
  - split; [reflexivity|]. exists []. simpl. now rewrite app_nil_r.
  - remember (attach_images i title sku product_id (img :: rest) attached w)
      as X eqn:EX.
    cbn [attach_images] in EX. unfold bind at 1 in EX.
    destruct (attach_image product_id img (calls w)) as [r1 h1] eqn:E1.
    rewrite (try_bind_run _ _ _ _ _ _ (lift_run _ w _ _ E1)) in EX.
    destruct r1 as [b|[msg|name]].
    + unfold try_except, ret in EX. subst X.
      destruct (IH (attached + 1)
                  {| calls := h1; logs := logs w; infos := infos w |})
        as [Hs [errs [Hl Hf]]].
      split; [exact Hs|]. exists errs. split; [exact Hl|exact Hf].
    + unfold bind at 1, log_append, ret in EX. cbn [calls logs infos] in EX.
      subst X.
      destruct (IH attached
                  {| calls := h1;
                     logs := logs w ++
                       [LogImageError i title sku product_id (firstn 300 msg)
                          (filename img)];
                     infos := infos w |})
        as [Hs [errs [Hl Hf]]].
      split; [exact Hs|].
      exists (LogImageError i title sku product_id (firstn 300 msg)
                (filename img) :: errs).
      split.
      * rewrite Hl. cbn [logs]. now rewrite <- app_assoc.
      * constructor; [|exact Hf]. split; [reflexivity|].
        unfold row_record. cbn [log_row detail_bounded].
        rewrite Nat.eqb_refl. apply Nat.leb_le, firstn_le_length.
    + subst X. split; [reflexivity|]. exists []. simpl. now rewrite app_nil_r.
Qed.

Lemma created_logs i r prod w2 (base : list log_record) imgs :
  logs w2 = base ->
  is_shopify_error
    (fst (bind
            (attach_images i (row_title r) (row_sku r)
               (p_id prod) imgs 0)
            (fun attached =>
               log_append
                 (LogCreated i (row_title r) (row_sku r)
                    (p_id prod) (p_handle prod)
                    attached)) w2)) = false /\
  exists errs tail,
    logs (snd (bind
            (attach_images i (row_title r) (row_sku r)
               (p_id prod) imgs 0)
            (fun attached =>
               log_append
                 (LogCreated i (row_title r) (row_sku r)
                    (p_id prod) (p_handle prod)
                    attached)) w2)) = base ++ errs ++ tail /\
    Forall (fun l => is_primary l = false /\ row_record i l = true) errs /\
    (if is_return
          (fst (bind
            (attach_images i (row_title r) (row_sku r)
               (p_id prod) imgs 0)
            (fun attached =>
               log_append
                 (LogCreated i (row_title r) (row_sku r)
                    (p_id prod) (p_handle prod)
                    attached)) w2))
     then exists p, tail = [p] /\ is_primary p = true /\ row_record i p = true
     else tail = []).
Proof.
  intros Hw2. unfold bind.
  destruct (attach_images_logs i (row_title r) (row_sku r)
              (p_id prod) imgs 0 w2) as [Hs [errs [Hl Hf]]].
  destruct (attach_images i (row_title r) (row_sku r)
              (p_id prod) imgs 0 w2) as [[a|e] w3];
    cbn [fst snd] in *.
  - split; [reflexivity|].
    exists errs, [LogCreated i (row_title r) (row_sku r)
                    (p_id prod) (p_handle prod) a].
    split.
    + unfold log_append. cbn [snd logs]. rewrite Hl, Hw2.
      now rewrite <- app_assoc.
    + split; [exact Hf|]. cbn [log_append fst is_return].
      eexists. split; [reflexivity|]. split; [reflexivity|].
      unfold row_record. cbn. now rewrite Nat.eqb_refl.
  - split; [exact Hs|]. exists errs, []. split.
    + rewrite Hl, Hw2. now rewrite app_nil_r.
    + split; [exact Hf|]. reflexivity.
Qed.

Lemma with_product_logs i r imgs prod w :
  is_shopify_error (fst (with_product i r imgs prod w)) = false /\
  exists errs tail,
    logs (snd (with_product i r imgs prod w)) = logs w ++ errs ++ tail /\
    Forall (fun l => is_primary l = false /\ row_record i l = true) errs /\
    (if is_return (fst (with_product i r imgs prod w))
     then exists p, tail = [p] /\ is_primary p = true /\ row_record i p = true
     else tail = []).
Proof.
  remember (with_product i r imgs prod w) as X eqn:EX.
  unfold with_product, bind at 1, try_except in EX.
  destruct (update_product_metafields (p_id prod) (row_seo_title r)
              (row_seo_desc r) (calls w)) as [rs h2] eqn:Es.
  rewrite (lift_run _ w _ _ Es) in EX.
  destruct rs as [[]|[msg|name]].
  - subst X. now apply created_logs.
  - unfold info at 1 in EX. subst X. now apply created_logs.
  - subst X. split; [reflexivity|]. exists [], []. cbn. rewrite app_nil_r.
    now repeat split.
Qed.

Lemma after_creation_logs i r imgs res w :
  is_shopify_error (fst (after_creation i r imgs res w)) = false /\
  exists errs tail,
    logs (snd (after_creation i r imgs res w)) = logs w ++ errs ++ tail /\
    Forall (fun l => is_primary l = false /\ row_record i l = true) errs /\
    (if is_return (fst (after_creation i r imgs res w))
     then exists p, tail = [p] /\ is_primary p = true /\ row_record i p = true
     else tail = []).
Proof.
  unfold after_creation. destruct (product_of res) as [prod|].
  - apply with_product_logs.
  - split; [reflexivity|]. exists [], []. cbn. rewrite app_nil_r.
    now repeat split.
Qed.

Lemma process_row_logs cfg index i r w :
  is_shopify_error (fst (process_row cfg index i r w)) = false /\
  exists errs tail,
    logs (snd (process_row cfg index i r w)) = logs w ++ errs ++ tail /\
    Forall (fun l => is_primary l = false /\ row_record i l = true) errs /\
    (if is_return (fst (process_row cfg index i r w))
     then exists p, tail = [p] /\ is_primary p = true /\ row_record i p = true
     else tail = []).
Proof.
  destruct (row_title r) as [|c t] eqn:Et.
  - unfold process_row. rewrite Et. cbn [truthy negb].
    split; [reflexivity|].
    exists [], [LogSkipped i [] (row_sku r) (u "Titolo mancante")].
    cbn. split; [reflexivity|]. split; [constructor|].
    eexists. split; [reflexivity|]. split; [reflexivity|].
    unfold row_record. cbn. now rewrite Nat.eqb_refl.
  - assert (Ht : row_title r <> []) by (rewrite Et; discriminate).
    rewrite process_row_titled by exact Ht.
    destruct (create_product (product_payload cfg r) (calls w))
      as [r0 h1] eqn:Ec.
    rewrite (try_bind_run _ _ _ _ _ _ (lift_run _ w _ _ Ec)).
    destruct r0 as [res|[msg|name]].
    + unfold try_except.
      destruct (after_creation_logs i r (images_found cfg index r) res
                  {| calls := h1; logs := logs w; infos := infos w |})
        as [Hs [errs [tail [Hl [Hf Hp]]]]].
      destruct (after_creation i r (images_found cfg index r) res
                  {| calls := h1; logs := logs w; infos := infos w |})
        as [[[]|[msg|name]] w2]; cbn [fst snd is_return] in *;
        try discriminate.
      * split; [reflexivity|]. now exists errs, tail.
      * split; [reflexivity|]. now exists errs, tail.
    + split; [reflexivity|].
      exists [], [LogError i (row_title r) (row_sku r) (firstn 500 msg)].
      unfold log_append. cbn [fst snd logs app is_return].
      split; [reflexivity|]. split; [constructor|].
      eexists. split; [reflexivity|]. split; [reflexivity|].
      unfold row_record. cbn [log_row detail_bounded].
      rewrite Nat.eqb_refl. apply Nat.leb_le, firstn_le_length.
    + split; [reflexivity|]. exists [], []. cbn. rewrite app_nil_r.
      now repeat split.
Qed.

Lemma filter_none {A} (p : A -> bool) l :
  Forall (fun x => p x = false) l -> filter p l = [].
Proof.
  induction 1 as [|x l Hx _ IH]; simpl; [reflexivity|]. now rewrite Hx.
Qed.

(** X16: the records of a row: a row adds image_error records of its own
    index and then, unless an exception ends the run, exactly one record
    with another status (skipped, created or error); error details are
    within 500 characters for a row and 300 for an image; and
    ShopifyError never leaves the row. *)
Theorem row_records (cfg : config) (index : dict bytes) (i : nat) (r : row)
  (w : world) :
  is_shopify_error (fst (process_row cfg index i r w)) = false /\
  exists errs tail,
    logs (snd (process_row cfg index i r w)) = logs w ++ errs ++ tail /\
    Forall (fun l => is_primary l = false /\ row_record i l = true) errs /\
    (if is_return (fst (process_row cfg index i r w))
     then exists p, tail = [p] /\ is_primary p = true /\ row_record i p = true
     else tail = []).
Proof. apply process_row_logs. Qed.

(** X17: the records of a run: a run that ends normally has logged, in
    the order of the rows, exactly one record that is not an image_error
    for every row, with the index of the row; all the details it logged
    are within their bounds; and no run ends with ShopifyError. *)
Theorem run_records (cfg : config) (index : dict bytes) (rows : list row) :
  forall (i : nat) (w : world),
    is_shopify_error (fst (process_rows cfg index i rows w)) = false /\
    exists more,
      logs (snd (process_rows cfg index i rows w)) = logs w ++ more /\
      Forall (fun l => detail_bounded l = true) more /\
      (if is_return (fst (process_rows cfg index i rows w))
       then List.map log_row (filter is_primary more) =
              seq i (List.length rows)
       else True).
Proof.
  induction rows as [|r rest IH]; intros i w.
  - split; [reflexivity|]. exists []. cbn. now rewrite app_nil_r.
  - cbn [process_rows].
    destruct (process_row_logs cfg index i r w)
      as [Hs [errs [tail [Hl [Hf Hp]]]]].
    assert (Hb : Forall (fun l => detail_bounded l = true) errs).
    { apply Forall_impl with (2 := Hf). intros l [_ H].
      unfold row_record in H. now apply andb_true_iff in H. }
    destruct (process_row cfg index i r w) as [r0 w1] eqn:Er.
    rewrite (bind_run _ _ _ _ _ Er).
    destruct r0 as [[]|e]; cbn [fst snd is_return] in *.
    + destruct Hp as [p [-> [Hp1 Hp2]]].
      destruct (IH (i + 1) w1) as [Hs' [more [Hl' [Hb' Hp']]]].
      split; [exact Hs'|]. exists (errs ++ [p] ++ more). split; [|split].
      * rewrite Hl', Hl. now rewrite <- !app_assoc.
      * apply Forall_app. split; [exact Hb|]. apply Forall_app. split; [|exact Hb'].
        constructor; [|constructor]. unfold row_record in Hp2.
        now apply andb_true_iff in Hp2.
      * destruct (is_return (fst (process_rows cfg index (i + 1) rest w1)));
          [|exact I].
        rewrite !filter_app, !map_app.
        rewrite filter_none
          by (apply Forall_impl with (2 := Hf); now intros l [H _]).
        cbn [filter]. rewrite Hp1. cbn [map app length seq].
        unfold row_record in Hp2. apply andb_true_iff in Hp2.
        destruct Hp2 as [Hp2 _]. apply Nat.eqb_eq in Hp2.
        rewrite Hp2, Hp'. now rewrite Nat.add_1_r.
    + split; [exact Hs|]. exists (errs ++ tail). split; [exact Hl|].
      split; [|exact I]. subst tail. now rewrite app_nil_r.
Qed.


(** ** The number of requests *)

Lemma aam_weaken {S A} proj n n' (m : M S A) :
  n <= n' -> adds_at_most proj n m -> adds_at_most proj n' m.
Proof.
  intros Hn H s. destruct (H s) as [more [H1 H2]]. exists more.
  split; [exact H1|lia].
Qed.

Lemma aam_ret {S A} proj (a : A) : adds_at_most proj 0 (@ret S A a).
Proof. intros s. exists []. simpl. now rewrite app_nil_r. Qed.

Lemma aam_bind {S A B} proj n1 n2 (m : M S A) (k : A -> M S B) :
  adds_at_most proj n1 m -> (forall a, adds_at_most proj n2 (k a)) ->
  adds_at_most proj (n1 + n2) (bind m k).
Proof.
  intros Hm Hk s. unfold bind. destruct (Hm s) as [more1 [H1 L1]].
  destruct (m s) as [[a|e] s1]; simpl in *.
  - destruct (Hk a s1) as [more2 [H2 L2]]. exists (more1 ++ more2).
    rewrite H2, H1, app_assoc, length_app. split; [reflexivity|lia].
  - exists more1. split; [exact H1|lia].
Qed.

Lemma aam_try_except {S A} proj n1 n2 (body : M S A) handler :
  adds_at_most proj n1 body -> (forall e, adds_at_most proj n2 (handler e)) ->
  adds_at_most proj (n1 + n2) (try_except body handler).
Proof.
  intros Hb Hh s. unfold try_except. destruct (Hb s) as [more1 [H1 L1]].
  destruct (body s) as [[a|[msg|name]] s1]; simpl in *;
    try (exists more1; split; [exact H1|lia]).
  destruct (Hh msg s1) as [more2 [H2 L2]]. exists (more1 ++ more2).
  rewrite H2, H1, app_assoc, length_app. split; [reflexivity|lia].
Qed.

Lemma aam_retry_loop {St A} proj n k (op : M St A) :
  adds_at_most proj n op -> adds_at_most proj ((k + 1) * n) (retry_loop k op).
Proof.
  intros Hop. induction k as [|k IH]; intros s; rewrite retry_loop_step;
    destruct (Hop s) as [more1 [H1 L1]];
    destruct (op s) as [[a|[msg|name]] s1]; simpl in *;
    try (exists more1; split; [exact H1|lia]).
  destruct (IH s1) as [more2 [H2 L2]]. exists (more1 ++ more2).
  rewrite H2, H1, app_assoc, length_app. split; [reflexivity|].
  simpl in L2. lia.
Qed.

Lemma aam_raise {S A} proj e : adds_at_most proj 0 (@raise S A e).
Proof. intros s. exists []. simpl. now rewrite app_nil_r. Qed.

Lemma aam_api_call m e payload :
  adds_at_most (fun h => h) 6 (api_call m e payload).
Proof.
  intros h. destruct (api_call_trace m e payload h) as [n [Hn E]].
  eexists. split; [exact E|]. rewrite repeat_length. lia.
Qed.

Lemma aam_lift {A} n (op : M (list request) A) :
  adds_at_most (fun h => h) n op -> adds_at_most calls n (lift op).
Proof.
  intros Hop w. unfold lift. destruct (Hop (calls w)) as [more [H L]].
  destruct (op (calls w)) as [r h]. simpl in *. now exists more.
Qed.

Lemma aam_log_append l : adds_at_most calls 0 (log_append l).
Proof. intros w. exists []. simpl. now rewrite app_nil_r. Qed.

Lemma aam_info title e : adds_at_most calls 0 (info title e).
Proof. intros w. exists []. simpl. now rewrite app_nil_r. Qed.

Lemma aam_update product_id seo_title seo_desc :
  adds_at_most (fun h => h) 6
    (update_product_metafields product_id seo_title seo_desc).
Proof.
  unfold update_product_metafields.
  destruct (nonempty _); [|apply aam_weaken with (n := 0); [lia|apply aam_ret]].
  change 6 with (6 + 0).
  apply aam_bind; [apply aam_api_call|intros; apply aam_ret].
Qed.

Lemma aam_attach_images i title sku product_id imgs :
  forall attached,
    adds_at_most calls (24 * List.length imgs)
      (attach_images i title sku product_id imgs attached).
Proof.
  induction imgs as [|img rest IH]; intros attached.
  - apply aam_ret.
  - cbn [attach_images List.length].
    replace (24 * S (List.length rest)) with (24 + 24 * List.length rest)
      by lia.
    apply aam_bind; [|intros; apply IH].
    change 24 with ((24 + 0) + (0 + 0)).
    apply aam_try_except.
    + apply aam_bind; [|intros; apply aam_ret].
      apply aam_lift. change 24 with ((3 + 1) * 6).
      apply aam_retry_loop, aam_api_call.
    + intros e. apply aam_bind; [apply aam_log_append|intros; apply aam_ret].
Qed.


(** ** When the remote API accepts every call *)

Section Accepting.

Hypothesis always_accepted : forall h q, accepted (remote h q) = true.

Lemma accepted_send q h :
  exists status_code text res prod,
    session_request q h = (Response status_code text (Some res), h ++ [q]) /\
    (status_code < 400)%Z /\ product_of res = Some prod.
Proof using always_accepted.
  assert (H := always_accepted h q).
  destruct (remote h q) as [st ra txt [res|]|] eqn:E; try discriminate.
  simpl in H. apply andb_true_iff in H. destruct H as [Hst Hp].
  apply Z.ltb_lt in Hst.
  destruct (product_of res) as [prod|] eqn:Ep; [|discriminate].
  exists st, txt, res, prod. split; [|now split].
  unfold session_request. apply (send_final _ _ _ _ ra); [exact E|].
  unfold Retry.is_retry, Retry.status_forcelist, Retry.RETRY_AFTER_STATUS_CODES.
  cbn [existsb].
  repeat match goal with
    | |- context [(st =? ?k)%Z] =>
        destruct (Z.eqb_spec st k); [lia|]
    end.
  now rewrite !andb_false_r.
Qed.

Lemma accepted_api_call m e payload h :
  exists res prod,
    api_call m e payload h =
      (Return res,
       h ++ [{| r_method := m; r_endpoint := e; r_json := payload |}]) /\
    product_of res = Some prod.
Proof using always_accepted.
  destruct (accepted_send {| r_method := m; r_endpoint := e; r_json := payload |} h)
    as [st [txt [res [prod [E [Hst Hp]]]]]].
  exists res, prod. split; [|exact Hp].
  rewrite api_call_run, E. cbn [fst snd response_result].
  destruct (Z.leb_spec 400 st); [lia|reflexivity].
Qed.

Lemma accepted_perform c h :
  exists res prod,
    perform c h = (Return res, h ++ [call_request c]) /\
    product_of res = Some prod.
Proof using always_accepted.
  destruct (accepted_api_call POST (r_endpoint (call_request c))
              (r_json (call_request c)) h) as [res [prod [E Hp]]].
  rewrite call_request_eta in E.
  exists res, prod. split; [|exact Hp].
  assert (E0 : undecorated c h = (Return res, h ++ [call_request c])) by exact E.
  assert (Ha : attempt c h 0 = Return res).
  { unfold attempt. cbn [history_after]. now rewrite E0. }
  assert (Hh : history_after c h 1 = h ++ [call_request c]).
  { cbn [history_after]. now rewrite E0. }
  rewrite perform_retry.
  rewrite (retry_loop_ends c 0 3 h); [now rewrite Ha, Hh| lia | intros; lia |].
  now rewrite Ha.
Qed.

Lemma accepted_update product_id seo_title seo_desc h :
  exists h2,
    update_product_metafields product_id seo_title seo_desc h =
      (Return tt, h2) /\
    List.length h2 =
      List.length h + (if truthy seo_title || truthy seo_desc then 1 else 0).
Proof using always_accepted.
  unfold update_product_metafields. rewrite seo_update_nonempty.
  destruct (truthy seo_title || truthy seo_desc).
  - destruct (accepted_api_call PUT (Product product_id)
                (VDict [(u "product", VDict (seo_update seo_title seo_desc))]) h)
      as [res [prod [E _]]].
    eexists. unfold bind, api_put. rewrite E. split; [reflexivity|].
    rewrite length_app. simpl. lia.
  - exists h. split; [reflexivity|lia].
Qed.

Lemma accepted_attach product_id imgs : forall h,
  exists outs h3,
    attach_outcomes product_id imgs h = (outs, h3) /\
    forallb is_return outs = true /\
    List.length outs = List.length imgs /\
    List.length h3 = List.length h + List.length imgs.
Proof using always_accepted.
  induction imgs as [|img rest IH]; intros h.
  - exists [], h. simpl. repeat split. lia.
  - destruct (accepted_perform (AttachImage product_id img) h)
      as [res [prod [Hr _]]].
    simpl perform in Hr.
    destruct (IH (h ++ [call_request (AttachImage product_id img)]))
      as [outs [h3 [Ho [Hall [Hlen Hh]]]]].
    exists (Return res :: outs), h3. cbn [attach_outcomes].
    rewrite Hr, Ho. split; [reflexivity|]. split; [exact Hall|].
    split; [simpl; now rewrite Hlen|].
    rewrite Hh, length_app. simpl. lia.
Qed.

Lemma all_returned outs :
  forallb is_return outs = true ->
  existsb is_other_exception outs = false /\
  count_attached outs = List.length outs /\
  forall i title sku product_id imgs,
    image_error_logs i title sku product_id imgs outs = [].
Proof using Type.
  induction outs as [|o outs IH]; intros H.
  - repeat split. intros. unfold image_error_logs.
    now destruct imgs.
  - simpl in H. apply andb_true_iff in H. destruct H as [Ho H].
    destruct (IH H) as [H1 [H2 H3]]. destruct o as [b|e]; [|discriminate].
    split; [exact H1|]. split.
    + unfold count_attached in *. simpl. now rewrite H2.
    + intros i title sku product_id imgs. destruct imgs as [|img imgs];
        [reflexivity|].
      unfold image_error_logs in *. simpl. apply H3.
Qed.


End Accepting.

(** ** The keys of the index *)

Lemma startswith_app_cases p a b :
  startswith p (a ++ b) = true ->
  startswith p a = true \/ exists c b', b = c :: b' /\ In c p.
Proof.
  revert p. induction a as [|y a IH]; intros p H.
  - destruct p as [|x p]; [now left|]. right. simpl in H.
    destruct b as [|c b']; [discriminate|].
    apply andb_true_iff in H. destruct H as [Hx _].
    apply N.eqb_eq in Hx. subst c. exists x, b'. split; [reflexivity|now left].
  - destruct p as [|x p]; [now left|]. simpl in H.
    apply andb_true_iff in H. destruct H as [Hx H].
    destruct (IH p H) as [Hl|[c [b' [Hb Hc]]]].
    + left. simpl. now rewrite Hx, Hl.
    + right. exists c, b'. split; [exact Hb|now right].
Qed.

Lemma supported_ext_no_slash ext :
  In ext supported_ext -> ~ In slash (rev ext).
Proof.
  unfold supported_ext. cbn [In].
  intros [<-|[<-|[<-|[<-|[<-|[]]]]]]; cbn; intros H;
    repeat (destruct H as [H|H]; [discriminate|]); exact H.
Qed.

(** X20: for an archive whose names are ASCII, every key of the index is
    a file name without a directory part that ends in a supported
    extension. *)
Theorem index_keys_are_image_files (zf : ZipFile) (k : str) :
  (forall e, In e zf -> forallb is_ascii (e_name e) = true) ->
  In k (keys (build_image_index_from_zip zf)) ->
  existsb (fun ext => endswith ext k) supported_ext = true /\
  ~ In slash k.
Proof.
  intros Hascii Hk. apply index_keys_spec in Hk.
  destruct Hk as [e [Hin [Himg Hkey]]].
  assert (Ha := Hascii e Hin).
  destruct (basename_split (e_name e)) as [dir [Hname [Hbase Hdir]]].
  rewrite Hname, forallb_app in Ha. apply andb_true_iff in Ha.
  destruct Ha as [Had Hab].
  assert (Hk : k = List.map ascii_lower (basename (e_name e))).
  { rewrite <- Hkey. unfold index_key. now apply lower_ascii. }
  assert (Hlow : lower (e_name e) =
                 List.map ascii_lower dir ++
                 List.map ascii_lower (basename (e_name e))).
  { rewrite Hname at 1. rewrite lower_ascii, map_app; [reflexivity|].
    rewrite forallb_app. now rewrite Had, Hab. }
  split.
  - unfold is_image_name in Himg. apply andb_true_iff in Himg.
    destruct Himg as [Hext _]. apply existsb_exists in Hext.
    destruct Hext as [ext [Hsup Hend]]. apply existsb_exists.
    exists ext. split; [exact Hsup|].
    rewrite Hlow in Hend. unfold endswith in *.
    rewrite rev_app_distr in Hend. rewrite Hk.
    destruct (startswith_app_cases _ _ _ Hend) as [H|[c [b' [Hb Hc]]]];
      [exact H|exfalso].
    destruct Hdir as [->|[d ->]]; [discriminate|].
    rewrite map_app, rev_app_distr in Hb. simpl in Hb.
    injection Hb as <- _.
    now apply (supported_ext_no_slash ext Hsup).
  - rewrite Hk. intros H. apply in_map_iff in H.
    destruct H as [c [Hc Hin']]. apply lowered_other in Hc; [|reflexivity].
    subst c. now apply Hbase.
Qed.


(** ** Rows that are skipped, rows whose creation is refused *)

(** X21: a row is skipped exactly when the text of its title cell is
    empty or white space only, which is the case of an absent column and
    of a cell of white space: it adds one record with the status skipped
    and the reason Titolo mancante and sends no request; every other row
    sends its creation request first. *)
Theorem blank_title_skipped (cfg : config) (index : dict bytes) (i : nat)
  (r : row) (w : world) :
  if forallb is_space (cell_text (col_titolo_prodotto r))
  then process_row cfg index i r w =
         (Return tt,
          {| calls := calls w;
             logs := logs w ++
                     [LogSkipped i [] (row_sku r) (u "Titolo mancante")];
             infos := infos w |})
  else exists more,
         calls (snd (process_row cfg index i r w)) =
         calls w ++ call_request (CreateProduct (product_payload cfg r)) :: more.
Proof.
  destruct (forallb is_space (cell_text (col_titolo_prodotto r))) eqn:E.
  - apply strip_by_nil in E.
    assert (Ht : row_title r = []) by exact E.
    unfold process_row. rewrite Ht. reflexivity.
  - apply process_row_sends_creation. intros H.
    apply strip_by_nil in H. congruence.
Qed.

(** X22: when the four attempts of a row's creation all raise
    ShopifyError (a status of 400 or more that the session hands back,
    such as 422), the row adds exactly one record, with the status error
    and the first 500 characters of the last error; nothing is sent after
    the four attempts, so neither the SEO update nor an image attachment
    takes place; and the loop goes on with the following rows. *)
Theorem shopify_error_row_logged (cfg : config) (index : dict bytes) (i : nat)
  (r : row) (rest : list row) (w : world) (msg : str) :
  row_title r <> [] ->
  (forall j, j < 3 ->
     is_shopify_error
       (attempt (CreateProduct (product_payload cfg r)) (calls w) j) = true) ->
  attempt (CreateProduct (product_payload cfg r)) (calls w) 3 =
    Raise (ShopifyError msg) ->
  process_row cfg index i r w =
    (Return tt,
     {| calls :=
          history_after (CreateProduct (product_payload cfg r)) (calls w) 4;
        logs :=
          logs w ++
          [LogError i (row_title r) (row_sku r) (firstn 500 msg)];
        infos := infos w |}) /\
  process_rows cfg index i (r :: rest) w =
    process_rows cfg index (i + 1) rest
      {| calls :=
           history_after (CreateProduct (product_payload cfg r)) (calls w) 4;
         logs :=
           logs w ++
           [LogError i (row_title r) (row_sku r) (firstn 500 msg)];
         infos := infos w |}.
Proof.
  intros Ht Hfail H3.
  set (c := CreateProduct (product_payload cfg r)) in *.
  assert (Hr : create_product (product_payload cfg r) (calls w) =
               (attempt c (calls w) 3, history_after c (calls w) 4)).
  { change (create_product (product_payload cfg r)) with (perform c).
    rewrite perform_retry. apply retry_loop_exhausted.
    intros j Hj. destruct (Nat.eq_dec j 3) as [->|Hn].
    - now rewrite H3.
    - apply Hfail. lia. }
  assert (Hrow : process_row cfg index i r w =
    (Return tt,
     {| calls := history_after c (calls w) 4;
        logs := logs w ++
          [LogError i (row_title r) (row_sku r) (firstn 500 msg)];
        infos := infos w |})).
  { rewrite process_row_titled by exact Ht.
    rewrite (try_bind_run _ _ _ _ _ _ (lift_run _ w _ _ Hr)).
    rewrite H3. reflexivity. }
  split; [exact Hrow|].
  cbn [process_rows]. now rewrite (bind_run _ _ _ _ _ Hrow).
Qed.

(** ** Image attachments *)

Lemma perform_trace c h :
  exists n, 1 <= n <= 24 /\
    snd (perform c h) = h ++ repeat (call_request c) n.
Proof.
  rewrite perform_retry.
  destruct (retry_loop_trace c 3 h) as [k [Hk [Hr _]]].
  destruct (history_after_trace c h (S k)) as [n [Hn E]].
  exists n. rewrite Hr, E. split; [lia|reflexivity].
Qed.

Lemma attach_outcomes_calls product_id imgs :
  forall h outs h',
    attach_outcomes product_id imgs h = (outs, h') ->
    List.length outs = List.length imgs /\
    exists counts,
      List.length counts = List.length imgs /\
      Forall (fun n => 1 <= n <= 24) counts /\
      h' = h ++ flat_map
                  (fun ic => repeat (call_request (AttachImage product_id (fst ic)))
                               (snd ic))
                  (combine imgs counts).
Proof.
  induction imgs as [|img rest IH]; intros h outs h' Ho.
  - simpl in Ho. injection Ho as <- <-. split; [reflexivity|].
    exists []. simpl. rewrite app_nil_r. auto.
  - cbn [attach_outcomes] in Ho.
    destruct (perform_trace (AttachImage product_id img) h) as [n [Hn Hr]].
    cbn [perform] in Hr.
    destruct (attach_image product_id img h) as [o h1]. cbn [snd] in Hr.
    destruct (attach_outcomes product_id rest h1) as [rs h2] eqn:E2.
    injection Ho as <- <-.
    destruct (IH _ _ _ E2) as [Hl [counts [Hc [Hf Hh]]]].
    split; [simpl; now rewrite Hl|].
    exists (n :: counts). split; [simpl; now rewrite Hc|].
    split; [constructor; [lia|exact Hf]|].
    rewrite Hh, Hr. cbn [combine flat_map fst snd]. now rewrite <- app_assoc.
Qed.


(** X25: when a row's creation returns a body that is not a JSON object,
    or whose product is neither absent nor an object (null, for one), the
    reading of the product raises AttributeError, which the loop does not
    catch: the run ends with it, the row and the rows after it get no
    record, and nothing is sent after the creation. *)
Theorem non_object_product_aborts (cfg : config) (index : dict bytes)
  (i : nat) (r : row) (rest : list row) (w : world) (res : body)
  (h1 : list request) :
  row_title r <> [] ->
  create_product (product_payload cfg r) (calls w) = (Return res, h1) ->
  product_of res = None ->
  process_rows cfg index i (r :: rest) w =
    (Raise (OtherException (u "AttributeError")),
     {| calls := h1; logs := logs w; infos := infos w |}).
Proof.
  intros Ht Hc Hp.
  assert (Hrow : process_row cfg index i r w =
            (Raise (OtherException (u "AttributeError")),
             {| calls := h1; logs := logs w; infos := infos w |})).
  { rewrite process_row_titled by exact Ht.
    rewrite (try_bind_run _ _ _ _ _ _ (lift_run _ w _ _ Hc)).
    unfold try_except, after_creation. rewrite Hp. reflexivity. }
  cbn [process_rows]. now rewrite (bind_run _ _ _ _ _ Hrow).
Qed.

End App.

(** * The properties on sample inputs *)

Import Sample.
Import MoreSamples.

Lemma slugify_idempotent_witness :
  (forall t, forallb is_ascii t = true -> nfkd_plain t = t) /\
  slugify lower_plain nfkd_plain
    (slugify lower_plain nfkd_plain (u "  Red -- Mug!! ")) =
  slugify lower_plain nfkd_plain (u "  Red -- Mug!! ").
Proof.
  split; [reflexivity|].
  apply (slugify_idempotent lower_plain nfkd_plain). reflexivity.
Defined.

(** With the maximum 0 the image matched for the row is kept: the list is
    longer than the maximum. *)
Lemma max_zero_keeps_images :
  max_images_per_product (settings 0) = 0 /\
  ~ List.length
      (images_found lower_plain nfkd_plain b64_plain (settings 0) two_images
         red_mug)
    <= max_images_per_product (settings 0).
Proof.
  split; [reflexivity|]. vm_compute. lia.
Qed.



Lemma empty_slug_no_handle_witness :
  row_title punctuation <> [] /\
  row_handle_url punctuation = [] /\
  slugify lower_plain nfkd_plain (row_title punctuation) = [] /\
  row_sku punctuation = [] /\
  dict_get (product_payload lower_plain nfkd_plain (settings 10) punctuation)
    (u "handle") = None /\
  images_found lower_plain nfkd_plain b64_plain (settings 10) two_images
    punctuation = [].
Proof.
  assert (Ht : row_title punctuation <> []) by (vm_compute; discriminate).
  assert (Hh : row_handle_url punctuation = []) by reflexivity.
  assert (Hs : slugify lower_plain nfkd_plain (row_title punctuation) = [])
    by reflexivity.
  assert (Hk : row_sku punctuation = []) by reflexivity.
  destruct (empty_slug_no_handle lower_plain nfkd_plain b64_plain (settings 10)
              two_images punctuation Ht Hh Hs) as [H1 [_ H3]].
  repeat split; auto.
Defined.



(** C4 on two rows, the creation of the second answered 500 at every
    request: the first row is created; for the second the session sends
    the request six times and raises RetryError, which the loop does not
    catch: the run ends with this exception and the second row has no
    record. *)
Lemma server_error_aborts_run :
  main lower_plain nfkd_plain b64_plain remote_one_bad_image (settings 10) []
    [red_mug; red_mug] =
  (Raise (OtherException (u "RetryError")),
   {| calls :=
        repeat (call_request
                  (CreateProduct
                     (product_payload lower_plain nfkd_plain (settings 10)
                        red_mug))) 7;
      logs :=
        [LogCreated 0 (u "Red Mug") (u "MUG01") (Some 7%Z)
           (Some (u "red-mug")) 0];
      infos := [] |}).
Proof. vm_compute. reflexivity. Qed.

(** C5 on a created row with two images, the attachment of the first
    answered 500 at every request: the session sends the request six times
    and raises RetryError, which the loop does not catch: the run ends
    with this exception, the second image is not sent, and the row has
    neither an image_error record nor a created record. *)
Lemma image_server_error_aborts_run :
  let run :=
    main lower_plain nfkd_plain b64_plain remote_one_bad_image (settings 10)
      two_images [red_mug] in
  fst run = Raise (OtherException (u "RetryError")) /\
  logs (snd run) = [] /\
  List.map r_endpoint (calls (snd run)) =
    Products :: repeat (ProductImages (Some 7%Z)) 6 /\
  List.map r_json (skipn 1 (calls (snd run))) =
    repeat
      (image_request
         {| attachment := b64_plain [Byte.x01]; filename := u "mug01-a.jpg" |})
      6.
Proof. vm_compute. repeat split. Qed.

(** C7 on a row whose title cell is empty: the title is the text nan,
    the row is not skipped, and a product with the title nan is created. *)
Lemma empty_title_cell_is_created :
  col_titolo_prodotto untitled = Some NaN /\
  row_title untitled = u "nan" /\
  main lower_plain nfkd_plain b64_plain remote_ok (settings 10) [] [untitled] =
  (Return tt,
   {| calls :=
        [call_request
           (CreateProduct
              (product_payload lower_plain nfkd_plain (settings 10) untitled))];
      logs :=
        [LogCreated 0 (u "nan") (u "MUG01") (Some 7%Z) (Some (u "red-mug")) 0];
      infos := [] |}) /\
  dict_get (product_payload lower_plain nfkd_plain (settings 10) untitled)
    (u "title") = Some (VStr (u "nan")).
Proof. vm_compute. repeat split. Qed.

(** C10 on a row with an empty handle cell and a title that slugifies to
    the empty text: the payload has the handle nan, and the handle is the
    identity key nan, which matches the file banana.jpg. *)
Lemma empty_handle_cell_is_nan :
  col_handle_url unnamed_handle = Some NaN /\
  row_title unnamed_handle <> [] /\
  slugify lower_plain nfkd_plain (row_title unnamed_handle) = [] /\
  row_sku unnamed_handle = [] /\
  dict_get
    (product_payload lower_plain nfkd_plain (settings 10) unnamed_handle)
    (u "handle") = Some (VStr (u "nan")) /\
  identity_keys (row_sku unnamed_handle)
    (row_handle lower_plain nfkd_plain unnamed_handle) = [u "nan"] /\
  List.map filename
    (images_found lower_plain nfkd_plain b64_plain (settings 10) fruit
       unnamed_handle) = [u "banana.jpg"].
Proof.
  split; [reflexivity|]. split; [vm_compute; discriminate|].
  vm_compute. repeat split.
Qed.

(** The row Red Mug with the image mug01.jpg: one created record with one
    image attached, after one creation call and one attachment call. *)
Example red_mug_created :
  let run :=
    main lower_plain nfkd_plain b64_plain remote_ok (settings 10)
      (build_image_index_from_zip lower_plain
         [{| e_name := u "photos/MUG01.JPG"; e_data := [Byte.x01] |}])
      [red_mug] in
  fst run = Return tt /\
  logs (snd run) =
    [LogCreated 0 (u "Red Mug") (u "MUG01") (Some 7%Z) (Some (u "red-mug")) 1] /\
  List.map r_endpoint (calls (snd run)) = [Products; ProductImages (Some 7%Z)] /\
  row_handle lower_plain nfkd_plain red_mug = Some (u "red-mug").
Proof. vm_compute. repeat split. Qed.

(** * The further properties on sample inputs *)


Lemma normalize_store_host_url_witness :
  normalize_store_host
    (u "HTTPS://" ++ u "my-store.myshopify.com" ++ u "/admin") =
  u "my-store.myshopify.com".
Proof.
  apply (normalize_store_host_url (u "HTTPS://") (u "my-store.myshopify.com"));
    try reflexivity.
  left. reflexivity.
Defined.

Lemma normalize_store_host_fixed_witness :
  normalize_store_host (u "my-store.myshopify.com") =
  u "my-store.myshopify.com".
Proof.
  apply (normalize_store_host_fixed (u "my-store.myshopify.com") eq_refl
           eq_refl eq_refl eq_refl eq_refl).
Defined.

Lemma payload_handle_rule_witness :
  row_title red_mug <> [] /\
  dict_get (product_payload lower_plain nfkd_plain (settings 10) red_mug)
    (u "handle") = Some (VStr (u "red-mug")).
Proof.
  assert (Ht : row_title red_mug <> []) by (vm_compute; discriminate).
  split; [exact Ht|].
  rewrite (proj1 (payload_handle_rule lower_plain nfkd_plain (settings 10)
                    red_mug Ht)).
  reflexivity.
Defined.

Lemma missing_cells_read_as_nan_witness :
  dict_get (product_payload lower_plain nfkd_plain (settings 10) all_missing)
    (u "title") = Some (VStr (u "nan")) /\
  dict_get (product_payload lower_plain nfkd_plain (settings 10) all_missing)
    (u "tags") = Some (VStr (u "nan")) /\
  dict_get (product_payload lower_plain nfkd_plain (settings 10) all_missing)
    (u "handle") = Some (VStr (u "nan")).
Proof.
  destruct (missing_cells_read_as_nan lower_plain nfkd_plain b64_plain
              remote_ok (settings 10) [] 0 all_missing start)
    as [H1 [H2 H3]].
  split; [exact (proj1 (H1 eq_refl))|]. split; [exact (H2 eq_refl)|].
  exact (H3 eq_refl).
Defined.

Lemma missing_sku_matches_nan_witness :
  In {| attachment := b64_plain [Byte.x03]; filename := u "banana.jpg" |}
    (images_matched lower_plain nfkd_plain b64_plain fruit all_missing).
Proof.
  apply (missing_sku_matches_nan lower_plain nfkd_plain b64_plain fruit
           all_missing (u "banana.jpg") [Byte.x03] eq_refl).
  - left. reflexivity.
  - reflexivity.
Defined.

Lemma images_found_firstn_witness :
  max_images_per_product (settings 1) <> 0 /\
  List.length
    (images_found lower_plain nfkd_plain b64_plain (settings 1) two_images
       red_mug) = 1.
Proof.
  assert (Hm : max_images_per_product (settings 1) <> 0) by discriminate.
  split; [exact Hm|].
  rewrite (proj2 (images_found_firstn lower_plain nfkd_plain b64_plain
                    (settings 1) two_images red_mug Hm)).
  reflexivity.
Defined.

Lemma images_found_distinct_witness :
  NoDup (keys two_images) /\
  NoDup (List.map filename
           (images_found lower_plain nfkd_plain b64_plain (settings 10)
              two_images red_mug)).
Proof.
  assert (Hk : NoDup (keys two_images)).
  { constructor; [intros [H|[]]; discriminate|].
    constructor; [intros []|constructor]. }
  split; [exact Hk|].
  exact (proj1 (images_found_distinct lower_plain nfkd_plain b64_plain
                  (settings 10) red_mug) two_images Hk).
Defined.

Lemma foreign_exception_aborts_witness :
  process_rows lower_plain nfkd_plain b64_plain remote_unreachable
    (settings 10) [] 0 [red_mug; red_mug] start =
  (Raise (OtherException (u "ConnectionError")),
   {| calls :=
        repeat
          (call_request
             (CreateProduct
                (product_payload lower_plain nfkd_plain (settings 10) red_mug)))
          6;
      logs := [];
      infos := [] |}).
Proof.
  assert (Ht : row_title red_mug <> []) by (vm_compute; discriminate).
  rewrite (foreign_exception_aborts lower_plain nfkd_plain b64_plain
             remote_unreachable (settings 10) [] 0 red_mug [red_mug] start 0
             (u "ConnectionError") Ht).
  - reflexivity.
  - lia.
  - intros j Hj. lia.
  - reflexivity.
Defined.

Lemma blank_title_skipped_example :
  process_row lower_plain nfkd_plain b64_plain remote_ok (settings 10) [] 0
    (titled "   " None) start =
  (Return tt,
   {| calls := [];
      logs := [LogSkipped 0 [] [] (u "Titolo mancante")];
      infos := [] |}).
Proof.
  exact (blank_title_skipped lower_plain nfkd_plain b64_plain remote_ok
           (settings 10) [] 0 (titled "   " None) start).
Defined.

Lemma shopify_error_row_logged_witness :
  process_rows lower_plain nfkd_plain b64_plain remote_rejecting (settings 10)
    [] 0 [red_mug; red_mug] start =
  (Return tt,
   {| calls :=
        repeat (call_request
                  (CreateProduct
                     (product_payload lower_plain nfkd_plain (settings 10)
                        red_mug))) 8;
      logs :=
        [LogError 0 (u "Red Mug") (u "MUG01")
           (u "POST /products.json -> 422: invalid");
         LogError 1 (u "Red Mug") (u "MUG01")
           (u "POST /products.json -> 422: invalid")];
      infos := [] |}).
Proof.
  assert (Ht : row_title red_mug <> []) by (vm_compute; discriminate).
  assert (H := shopify_error_row_logged lower_plain nfkd_plain b64_plain
              remote_rejecting (settings 10) [] 0 red_mug [red_mug] start
              (u "POST /products.json -> 422: invalid") Ht
              (fun j _ => eq_refl) eq_refl).
  rewrite (proj2 H). vm_compute. reflexivity.
Defined.


Lemma index_keys_are_image_files_witness :
  In (u "mug01.jpg") (keys (build_image_index_from_zip lower_plain photos)) /\
  existsb (fun ext => endswith ext (u "mug01.jpg")) supported_ext = true /\
  ~ In slash (u "mug01.jpg").
Proof.
  assert (Ha : forall e, In e photos -> forallb is_ascii (e_name e) = true).
  { intros e [<-|[<-|[<-|[]]]]; reflexivity. }
  assert (Hk : In (u "mug01.jpg")
                 (keys (build_image_index_from_zip lower_plain photos)))
    by (left; reflexivity).
  split; [exact Hk|].
  exact (index_keys_are_image_files lower_plain photos (u "mug01.jpg") Ha Hk).
Defined.


Lemma non_object_product_aborts_witness :
  main lower_plain nfkd_plain b64_plain remote_null_product (settings 10)
    two_images [red_mug; red_mug] =
  (Raise (OtherException (u "AttributeError")),
   {| calls :=
        [call_request
           (CreateProduct
              (product_payload lower_plain nfkd_plain (settings 10) red_mug))];
      logs := [];
      infos := [] |}).
Proof.
  assert (Ht : row_title red_mug <> []) by (vm_compute; discriminate).
  exact (non_object_product_aborts lower_plain nfkd_plain b64_plain
           remote_null_product (settings 10)
           two_images 0 red_mug [red_mug] start
           (JsonObject (Some ProductOther))
           [call_request
              (CreateProduct
                 (product_payload lower_plain nfkd_plain (settings 10)
                    red_mug))]
           Ht eq_refl eq_refl).
Defined.
